(** * The Slack client of vscode-chat: normalisation of API responses

    A shallow embedding of [src/client/index.ts].  The client receives
    loosely typed JSON (the TypeScript parameters are [any]), so the
    responses are modelled as JavaScript values; object literals built by
    the client are values too.  A callback that throws becomes an explicit
    [Throw], a promise chain becomes a program over the remote calls.

    The embedding covers [getMessage], [getConversationHistory],
    [getAllUsers], [getBotInfo], [getChannels], [getChannelInfo],
    [sendMessage] and [markChannel].

    The values are the JSON values and [undefined].  An object is given by
    its own properties; what it inherits from [Object.prototype] is written
    out at the three places where the client can observe it: the conversion
    of an object to a text ([ToString]), an assignment under the key
    [__proto__] ([assign]) and the test [key in users] ([inherited_name]).
    A number is given by the text [Number::toString] prints for it: the
    client converts numbers to texts and tests them for zero, and does no
    arithmetic.  Texts are sequences of code units. *)

From Stdlib Require Import Ascii.
From stdpp Require Import gmap strings list pretty.

(** ** JavaScript values *)

Module JS.

Unset Elimination Schemes.

(** The values a parsed JSON response is made of, and [undefined], which a
    read of a missing property yields.  [VNum text] is the number that
    prints as [text]: [VNum "50"], [VNum "1.5"], [VNum "1e+21"]; both zeros
    print as [0].  An object is a finite map from the names of its own
    properties to their values. *)
Inductive value :=
| VUndefined
| VNull
| VBool (b : bool)
| VNum (text : string)
| VStr (s : string)
| VArr (elems : list value)
| VObj (fields : gmap string value).

Set Elimination Schemes.

(** A [TypeError] is the only exception the client's own code can raise; a
    remote call that fails in transport rejects with its own error, and a
    call that the platform answers with a failure rejects with the platform
    error of the web client. *)
Inductive error := TypeError | TransportError | PlatformError.

(** A computation that returns or throws. *)
Inductive res (A : Type) :=
| Ok (a : A)
| Throw (e : error).

Arguments Ok {A} a.
Arguments Throw {A} e.

#[global] Instance res_ret : MRet res := @Ok.

#[global] Instance res_bind : MBind res :=
  λ A B f m, match m with Ok a => f a | Throw e => Throw e end.

#[global] Instance res_fmap : FMap res :=
  λ A B f m, match m with Ok a => Ok (f a) | Throw e => Throw e end.

(** ToBoolean: what [v ? a : b], [if (v)] and [!!v] test. *)
Definition truthy (v : value) : bool :=
  match v with
  | VUndefined | VNull => false
  | VBool b => b
  | VNum text => negb (String.eqb text "0" || String.eqb text "NaN")
  | VStr s => negb (String.eqb s "")
  | VArr _ | VObj _ => true
  end.

(** ToString: what a template literal and a computed property key apply.
    An array prints its elements joined by commas, [null] and [undefined]
    as the empty text.  An object is printed by the first callable of its
    [toString] and [valueOf] that returns a primitive: no property of a
    JSON object is callable, so an object with a [toString] of its own
    hides the inherited method and is left with the inherited [valueOf],
    which returns the object itself, and the conversion throws; any other
    object prints through the inherited [toString]. *)
Fixpoint ToString (v : value) : res string :=
  match v with
  | VUndefined => Ok "undefined"
  | VNull => Ok "null"
  | VBool true => Ok "true"
  | VBool false => Ok "false"
  | VNum text => Ok text
  | VStr s => Ok s
  | VArr elems =>
      String.concat "," <$>
        mapM (λ x, match x with
                   | VUndefined | VNull => Ok ""
                   | _ => ToString x
                   end) elems
  | VObj fields =>
      match fields !! "toString" with
      | Some _ => Throw TypeError
      | None => Ok "[object Object]"
      end
  end.

(** [obj[key]] with a computed key, as a property name. *)
Definition ToPropertyKey (v : value) : res string := ToString v.

Definition nullish (v : value) : bool :=
  match v with VUndefined | VNull => true | _ => false end.

(** [v.k] for a name [k] that the client reads (also the reads a
    destructuring pattern [{ k } = v] does); none of these names is
    defined by a prototype.  A [TypeError] on [undefined] and [null],
    [undefined] when the property is missing. *)
Definition get_field (v : value) (k : string) : res value :=
  match v with
  | VUndefined | VNull => Throw TypeError
  | VObj fields => Ok (default VUndefined (fields !! k))
  | VArr elems =>
      Ok (if String.eqb k "length" then VNum (pretty (length elems)) else VUndefined)
  | VStr s =>
      Ok (if String.eqb k "length" then VNum (pretty (String.length s)) else VUndefined)
  | VBool _ | VNum _ => Ok VUndefined
  end.

(** [v[i]] for a literal index [i]. *)
Definition get_index (v : value) (i : nat) : res value :=
  match v with
  | VUndefined | VNull => Throw TypeError
  | VObj fields => Ok (default VUndefined (fields !! pretty i))
  | VArr elems => Ok (default VUndefined (elems !! i))
  | VStr s =>
      Ok (match String.get i s with
          | Some c => VStr (String c "")
          | None => VUndefined
          end)
  | VBool _ | VNum _ => Ok VUndefined
  end.

(** [arr.map(f)]: only an array has the method, calling anything else
    throws. *)
Definition array_map (f : value → res value) (arr : value) : res value :=
  match arr with
  | VArr elems => VArr <$> mapM f elems
  | _ => Throw TypeError
  end.

(** [obj[key] = v] for an object [v], on an object [obj] that the client
    made with a literal: [__proto__] is the accessor that [obj] inherits,
    so the assignment under that key replaces the prototype of [obj] and
    gives it no property of its own; every other key becomes an own
    property.  [obj] is given by its own properties, before and after. *)
Definition assign (obj : gmap string value) (key : string) (v : value) : gmap string value :=
  if String.eqb key "__proto__" then obj else <[ key := v ]> obj.

(** The properties that every object made by a literal or parsed from JSON
    inherits from [Object.prototype], each with what [.name] reads from
    its value: a method is named like its property, the constructor is
    [Object], and [__proto__] yields the prototype, which has no name. *)
Definition inherited_name (key : string) : option value :=
  if String.eqb key "constructor" then Some (VStr "Object")
  else if String.eqb key "__proto__" then Some VUndefined
  else if bool_decide
            (key ∈ ["__defineGetter__"; "__defineSetter__"; "hasOwnProperty";
                    "__lookupGetter__"; "__lookupSetter__"; "isPrototypeOf";
                    "propertyIsEnumerable"; "toString"; "valueOf"; "toLocaleString"])
  then Some (VStr key)
  else None.

End JS.

Export JS.

(** ** The message normaliser *)

Definition HISTORY_LIMIT : value := VNum "50".

(** One field of the rich-content block:
    [attachments ? attachments[0].k : ""]. *)
Definition content_field (attachments : value) (k : string) : res value :=
  if truthy attachments
  then a0 ← get_index attachments 0; get_field a0 k
  else Ok (VStr "").

(** [files ? { name: files[0].name, permalink: files[0].permalink } : null] *)
Definition file_attachment (files : value) : res value :=
  if truthy files
  then
    f0 ← get_index files 0;
    name ← get_field f0 "name";
    f0' ← get_index files 0;
    permalink ← get_field f0' "permalink";
    Ok (VObj {[ "name" := name; "permalink" := permalink ]})
  else Ok VNull.

(** The callback of [reactions.map]. *)
Definition reaction_of (r : value) : res value :=
  name ← get_field r "name";
  count ← get_field r "count";
  users ← get_field r "users";
  Ok (VObj {[ "name" := name; "count" := count; "userIds" := users ]}).

(** [reactions ? reactions.map(...) : []] *)
Definition reaction_list (reactions : value) : res value :=
  if truthy reactions then array_map reaction_of reactions else Ok (VArr []).

(** The result is the object [parsed], by its own properties.  The key of
    [parsed[ts]] is converted and the record is built in the one
    statement; both can only throw a [TypeError], so their order does not
    show. *)
Definition getMessage (raw : value) : res (gmap string value) :=
  files ← get_field raw "files";
  ts ← get_field raw "ts";
  user ← get_field raw "user";
  text ← get_field raw "text";
  edited ← get_field raw "edited";
  bot_id ← get_field raw "bot_id";
  attachments ← get_field raw "attachments";
  reactions ← get_field raw "reactions";
  fileAttachment ← file_attachment files;
  key ← ToPropertyKey ts;
  reactions' ← reaction_list reactions;
  author ← content_field attachments "author_name";
  authorIcon ← content_field attachments "author_icon";
  pretext ← content_field attachments "pretext";
  title ← content_field attachments "title";
  titleLink ← content_field attachments "title_link";
  text' ← content_field attachments "text";
  footer ← content_field attachments "footer";
  borderColor ← content_field attachments "color";
  Ok (assign ∅ key
        (VObj {[ "userId" := if truthy user then user else bot_id;
                 "timestamp" := ts;
                 "isEdited" := VBool (truthy edited);
                 "text" := text;
                 "attachment" := fileAttachment;
                 "reactions" := reactions';
                 "content" :=
                   VObj {[ "author" := author;
                           "authorIcon" := authorIcon;
                           "pretext" := pretext;
                           "title" := title;
                           "titleLink" := titleLink;
                           "text" := text';
                           "footer" := footer;
                           "borderColor" := borderColor ]} ]})).

(** ** Regular expressions and the string methods the client calls *)

Module RegExp.

(** The fragment of the pattern language that the client's pattern uses:
    one code unit out of a class, concatenation, the greedy star and
    capturing groups. *)
Inductive regex :=
| Chr (p : ascii → bool)
| Cat (r1 r2 : regex)
| Star (r : regex)
| Grp (i : nat) (r : regex).

Definition Plus (r : regex) : regex := Cat r (Star r).

(** The text captured so far, by group number; a group that did not take
    part in the match has no entry. *)
Abbreviation captures := (gmap nat string).

(** A matcher state is the text still to read and the captures; a
    continuation says whether the rest of the pattern matches there. *)
Definition outcome := option (string * captures).
Definition cont := string → captures → outcome.

(** The text read between [s] and its suffix [s']. *)
Definition consumed (s s' : string) : string :=
  String.substring 0 (String.length s - String.length s') s.

Fixpoint groups_of (r : regex) : list nat :=
  match r with
  | Chr _ => []
  | Cat r1 r2 => groups_of r1 ++ groups_of r2
  | Star r => groups_of r
  | Grp i r => i :: groups_of r
  end.

Definition clear (gs : list nat) (c : captures) : captures :=
  foldr delete c gs.

(** The greedy iteration of the matcher [body]: one more round first, with
    the groups of the body reset, a round that reads nothing being
    refused; then the continuation, from the state before the round.
    [fuel] exceeds the length of [s], so it is never exhausted. *)
Fixpoint star_loop (body : string → captures → cont → outcome) (gs : list nat)
    (fuel : nat) (s : string) (c : captures) (k : cont) : outcome :=
  match fuel with
  | 0 => None
  | S fuel' =>
      match body s (clear gs c)
              (λ s' c',
                 if String.length s' <? String.length s
                 then star_loop body gs fuel' s' c' k
                 else None)
      with
      | Some x => Some x
      | None => k s c
      end
  end.

(** The backtracking matcher: alternatives are tried in the order of the
    pattern and the first one whose continuation succeeds wins. *)
Fixpoint matcher (r : regex) (s : string) (c : captures) (k : cont) : outcome :=
  match r with
  | Chr p =>
      match s with
      | String a s' => if p a then k s' c else None
      | EmptyString => None
      end
  | Cat r1 r2 => matcher r1 s c (λ s' c', matcher r2 s' c' k)
  | Star r => star_loop (matcher r) (groups_of r) (S (String.length s)) s c k
  | Grp i r => matcher r s c (λ s' c', k s' (<[i := consumed s s']> c'))
  end.

(** A match that starts at the head of [s]. *)
Definition match_here (r : regex) (s : string) : outcome :=
  matcher r s ∅ (λ s' c, Some (s', c)).

(** The leftmost match: every start position in turn, the end of the text
    included.  The result is the matched text and the captures. *)
Fixpoint search (r : regex) (s : string) : option (string * captures) :=
  match match_here r s with
  | Some (s', c) => Some (consumed s s', c)
  | None =>
      match s with
      | String _ s' => search r s'
      | EmptyString => None
      end
  end.

(** [str.match(r)] for a pattern without the global flag: [null] ([None])
    or the array of the matched text and the [ngroups] groups, [undefined]
    for a group that took no part. *)
Definition str_match (r : regex) (ngroups : nat) (s : string) : option (list value) :=
  match search r s with
  | Some (whole, c) =>
      Some (VStr whole ::
            ((λ i, from_option VStr VUndefined (c !! i)) <$> seq 1 ngroups))
  | None => None
  end.

(** The pattern that reads a literal text. *)
Fixpoint lit (t : string) (r : regex) : regex :=
  match t with
  | EmptyString => r
  | String a t' => Cat (Chr (Ascii.eqb a)) (lit t' r)
  end.

Definition is_digit (a : ascii) : bool :=
  match Ascii.is_nat a with Some _ => true | None => false end.

Definition not_dash (a : ascii) : bool := negb (Ascii.eqb a "-").

(** [str.split(sep)] for a separator text: [split_go] cuts at every
    leftmost occurrence of [sep]; [skip] counts the code units of an
    occurrence still to pass over, and the head of the result is the piece
    being read. *)
Fixpoint split_go (sep : string) (skip : nat) (s : string) : list string :=
  match s with
  | EmptyString => [""]
  | String a s' =>
      match skip with
      | S n => split_go sep n s'
      | 0 =>
          if String.prefix sep s
          then "" :: split_go sep (String.length sep - 1) s'
          else
            match split_go sep 0 s' with
            | piece :: pieces => String a piece :: pieces
            | [] => [String a ""]
            end
      end
  end.

Definition split (sep s : string) : list string :=
  match sep with
  | EmptyString => (λ a, String a "") <$> String.list_ascii_of_string s
  | _ => split_go sep 0 s
  end.

End RegExp.

Import RegExp.

(** The pattern of the source, piece by piece: the literal [mpdm-]; group 1,
    [([^-]+)], the first member; group 2, the starred group 3 [(--[^-]+)],
    the further members; the literal [-]; the digits [\d+]. *)
Definition mpdm_pattern : regex :=
  lit "mpdm-"
    (Cat (Grp 1 (Plus (Chr not_dash)))
       (Cat (Grp 2 (Star (Grp 3 (lit "--" (Plus (Chr not_dash))))))
          (lit "-" (Plus (Chr is_digit))))).

(** ** Promises over the remote API *)

(** A promise chain of the client: it settles, or it waits for the
    response of a remote call. *)
Inductive prog (A : Type) :=
| Resolve (a : A)
| Reject (e : error)
| ApiCall (method : string) (options : value) (k : value → prog A).

Arguments Resolve {A} a.
Arguments Reject {A} e.
Arguments ApiCall {A} method options k.

Fixpoint prog_bind {A B} (f : A → prog B) (p : prog A) : prog B :=
  match p with
  | Resolve a => f a
  | Reject e => Reject e
  | ApiCall method options k => ApiCall method options (λ r, prog_bind f (k r))
  end.

#[global] Instance prog_ret : MRet prog := @Resolve.
#[global] Instance prog_mbind : MBind prog := @prog_bind.

(** [this.client.apiCall(method, options)], and the methods of the client
    that are bound to it: [this.client.groups.info(options)] is the call
    of [groups.info], and so on. *)
Definition apiCall (method : string) (options : value) : prog value :=
  ApiCall method options Resolve.

(** [p.then(f)]: a callback that throws rejects the chain. *)
Definition then_ {A B} (p : prog A) (f : A → res B) : prog B :=
  a ← p; match f a with Ok b => Resolve b | Throw e => Reject e end.

(** The remote side: the parsed body of the answer to every call, or a
    transport failure. *)
Definition remote := string → value → res value.

Inductive settled (A : Type) :=
| Fulfilled (a : A)
| Rejected (e : error).

Arguments Fulfilled {A} a.
Arguments Rejected {A} e.

(** The promise of [WebClient.apiCall].  The client is the one of the
    package [@slack/client], version 4, which the source imports and
    constructs; it is no part of the source.  It reads [ok] from the body:
    the promise is fulfilled with the body when [ok] is truthy, and is
    rejected with the client's platform error when it is not, so that no
    callback of the source is handed a body that reports a failure. *)
Definition client_call (api : remote) (method : string) (options : value) : settled value :=
  match api method options with
  | Ok body =>
      match get_field body "ok" with
      | Ok ok => if truthy ok then Fulfilled body else Rejected PlatformError
      | Throw e => Rejected e
      end
  | Throw e => Rejected e
  end.

Fixpoint run {A} (api : remote) (p : prog A) : settled A :=
  match p with
  | Resolve a => Fulfilled a
  | Reject e => Rejected e
  | ApiCall method options k =>
      match client_call api method options with
      | Fulfilled response => run api (k response)
      | Rejected e => Rejected e
      end
  end.

(** The remote calls a chain issues against [api], in order. *)
Fixpoint calls {A} (api : remote) (p : prog A) : list (string * value) :=
  match p with
  | Resolve _ | Reject _ => []
  | ApiCall method options k =>
      (method, options) ::
      match client_call api method options with
      | Fulfilled response => calls api (k response)
      | Rejected _ => []
      end
  end.

(** [arr.forEach(f)] where [f] updates a variable of the enclosing scope,
    here the state [st]. *)
Fixpoint forEach_list {S} (f : S → value → res S) (elems : list value) (st : S) : res S :=
  match elems with
  | [] => Ok st
  | x :: elems' => st' ← f st x; forEach_list f elems' st'
  end.

Definition forEach {S} (f : S → value → res S) (arr : value) (st : S) : res S :=
  match arr with
  | VArr elems => forEach_list f elems st
  | _ => Throw TypeError
  end.

(** ** The history and the resource listers *)

(** The callback of [getConversationHistory]; the spread
    [{...result, ...getMessage(message)}] copies the own properties and
    lets the new record win. *)
Definition history_of_response (response : value) : res (gmap string value) :=
  messages ← get_field response "messages";
  ok ← get_field response "ok";
  if truthy ok
  then forEach (λ result message, parsed ← getMessage message; Ok (parsed ∪ result))
         messages ∅
  else Ok ∅.

Definition getConversationHistory (channel : string) : prog (gmap string value) :=
  then_
    (apiCall "conversations.history"
       (VObj {[ "channel" := VStr channel; "limit" := HISTORY_LIMIT ]}))
    history_of_response.

(** The callback of [getAllUsers]: [return users] stands inside the
    [if (ok)], so the other branch returns [undefined].  The result is the
    object [users], by its own properties. *)
Definition users_of_response (response : value) : res value :=
  members ← get_field response "members";
  ok ← get_field response "ok";
  if truthy ok
  then
    users ←
      forEach
        (λ (users : gmap string value) member,
           id ← get_field member "id";
           key ← ToPropertyKey id;
           name ← get_field member "name";
           profile ← get_field member "profile";
           image_72 ← get_field profile "image_72";
           Ok (assign users key
                 (VObj {[ "id" := id; "name" := name; "imageUrl" := image_72 ]})))
        members ∅;
    Ok (VObj users)
  else Ok VUndefined.

Definition getAllUsers : prog value :=
  then_ (apiCall "users.list" (VObj ∅)) users_of_response.

(** The callback of [getBotInfo]: [return users] stands after the [if]. *)
Definition bot_of_response (response : value) : res value :=
  bot ← get_field response "bot";
  ok ← get_field response "ok";
  users ←
    (if truthy ok
     then
       id ← get_field bot "id";
       name ← get_field bot "name";
       icons ← get_field bot "icons";
       key ← ToPropertyKey id;
       image_72 ← get_field icons "image_72";
       Ok (assign ∅ key
             (VObj {[ "id" := id; "name" := name; "imageUrl" := image_72;
                      "isBot" := VBool true ]}))
     else Ok ∅);
  Ok (VObj users).

Definition getBotInfo (botId : string) : prog value :=
  then_ (apiCall "bots.info" (VObj {[ "bot" := VStr botId ]})) bot_of_response.

(** ** The channel aggregator *)

(** The callback of [channels.map]; the template literal converts the name
    to a text. *)
Definition channel_of (channel : value) : res value :=
  id ← get_field channel "id";
  name ← get_field channel "name";
  shown ← ToString name;
  Ok (VObj {[ "id" := id; "name" := VStr ("#" +:+ shown);
              "type" := VStr "channel" ]}).

Definition channels_of_response (response : value) : res value :=
  ok ← get_field response "ok";
  channels ← get_field response "channels";
  if truthy ok then array_map channel_of channels else Ok VUndefined.

(** The name of a group: the members of a multi-party conversation decoded
    from its name, or the name behind a [#].  Only a text has the method
    [match]. *)
Definition group_name (is_mpim name : value) : res value :=
  if truthy is_mpim
  then
    match name with
    | VStr raw =>
        match str_match mpdm_pattern 3 raw with
        | Some matched =>
            let first := default VUndefined (matched !! 1) in
            match default VUndefined (matched !! 2) with
            | VStr further =>
                let rest := filter (λ element, truthy (VStr element)) (split "--" further) in
                members ←
                  mapM (λ element, shown ← ToString element; Ok ("@" +:+ shown))
                    (first :: (VStr <$> rest));
                Ok (VStr (String.concat ", " members))
            | _ => Throw TypeError
            end
        | None => Ok name
        end
    | _ => Throw TypeError
    end
  else shown ← ToString name; Ok (VStr ("#" +:+ shown)).

(** The callback of [groups.map]. *)
Definition group_of (group : value) : res value :=
  id ← get_field group "id";
  is_mpim ← get_field group "is_mpim";
  name ← get_field group "name";
  name' ← group_name is_mpim name;
  Ok (VObj {[ "id" := id; "name" := name'; "type" := VStr "group" ]}).

Definition groups_of_response (response : value) : res value :=
  ok ← get_field response "ok";
  groups ← get_field response "groups";
  if truthy ok then array_map group_of groups else Ok VUndefined.

(** The name of a direct message:
    [im.user in users ? users[im.user].name : im.user] behind an [@].
    The directory [users] is an object that inherits from
    [Object.prototype], given by its own properties: [in] finds the own
    and the inherited properties, and an own property hides an inherited
    one. *)
Definition direct_name (users : gmap string value) (user : value) : res value :=
  key ← ToPropertyKey user;
  partner ←
    match users !! key with
    | Some entry => get_field entry "name"
    | None =>
        match inherited_name key with
        | Some name => Ok name
        | None => Ok user
        end
    end;
  shown ← ToString partner;
  Ok (VStr ("@" +:+ shown)).

(** The callback of [ims.map]. *)
Definition direct_of (users : gmap string value) (im : value) : res value :=
  id ← get_field im "id";
  user ← get_field im "user";
  name ← direct_name users user;
  Ok (VObj {[ "id" := id; "name" := name; "type" := VStr "im" ]}).

Definition directs_of_response (users : gmap string value) (response : value) : res value :=
  ok ← get_field response "ok";
  ims ← get_field response "ims";
  if truthy ok then array_map (direct_of users) ims else Ok VUndefined.

(** [[].concat(...values)]: an array argument is spliced in, any other
    argument is appended as one element. *)
Definition concat_spread (values : list value) : list value :=
  values ≫= (λ v, match v with VArr elems => elems | _ => [v] end).

(** The three calls are started before any response is read and their
    callbacks share no state, so the chain reads them one after the
    other; [Promise.all] then hands the three results over in the order
    channels, groups, directs. *)
Definition getChannels (users : gmap string value) : prog (list value) :=
  channels ←
    then_ (apiCall "channels.list" (VObj {[ "exclude_archived" := VBool true ]}))
      channels_of_response;
  groups ←
    then_ (apiCall "groups.list" (VObj {[ "exclude_archived" := VBool true ]}))
      groups_of_response;
  directs ← then_ (apiCall "im.list" (VObj ∅)) (directs_of_response users);
  Resolve (concat_spread [channels; groups; directs]).

(** ** Channel information and the actions *)

(** [v === s] for a text [s], the test of a [case] label. *)
Definition is_text (v : value) (s : string) : bool :=
  match v with
  | VStr t => String.eqb t s
  | _ => false
  end.

(** The own properties that an object spread [{...v}] copies. *)
Definition own_properties (v : value) : gmap string value :=
  match v with
  | VObj fields => fields
  | VArr elems => list_to_map (imap (λ i x, (pretty i, x)) elems)
  | VStr s =>
      list_to_map
        (imap (λ i a, (pretty i, VStr (String a ""))) (String.list_ascii_of_string s))
  | _ => ∅
  end.

(** The callback of [getChannelInfo]: the unread count and the last-read
    timestamp come from the object the response holds under [key], and
    override what the spread of the channel copied. *)
Definition info_of_response (originalChannel : value) (key : string) (response : value)
  : res value :=
  info ← get_field response key;
  unread_count ← get_field info "unread_count";
  last_read ← get_field info "last_read";
  Ok (VObj (<[ "readTimestamp" := last_read ]>
              (<[ "unreadCount" := unread_count ]> (own_properties originalChannel)))).

(** The arrow function reads [id] and [type] before any call; a [type]
    outside the three labels falls out of the [switch], and the function
    returns [undefined] ([None]) instead of a promise.  The methods
    [client.groups.info] and the like are the remote operations of that
    name. *)
Definition getChannelInfo (originalChannel : value) : res (option (prog value)) :=
  id ← get_field originalChannel "id";
  type ← get_field originalChannel "type";
  if is_text type "group"
  then Ok (Some (then_ (apiCall "groups.info" (VObj {[ "channel" := id ]}))
                   (info_of_response originalChannel "group")))
  else if is_text type "channel"
  then Ok (Some (then_ (apiCall "channels.info" (VObj {[ "channel" := id ]}))
                   (info_of_response originalChannel "channel")))
  else if is_text type "im"
  then Ok (Some (then_ (apiCall "conversations.info" (VObj {[ "channel" := id ]}))
                   (info_of_response originalChannel "channel")))
  else Ok None.

Definition sendMessage (arg : value) : res (prog value) :=
  channel ← get_field arg "channel";
  text ← get_field arg "text";
  Ok (apiCall "chat.postMessage"
        (VObj {[ "channel" := channel; "text" := text; "as_user" := VBool true ]})).

Definition markChannel (arg : value) : res (option (prog value)) :=
  channel ← get_field arg "channel";
  ts ← get_field arg "ts";
  id ← get_field channel "id";
  type ← get_field channel "type";
  if is_text type "channel"
  then Ok (Some (apiCall "channels.mark" (VObj {[ "channel" := id; "ts" := ts ]})))
  else if is_text type "group"
  then Ok (Some (apiCall "groups.mark" (VObj {[ "channel" := id; "ts" := ts ]})))
  else if is_text type "im"
  then Ok (Some (apiCall "im.mark" (VObj {[ "channel" := id; "ts" := ts ]})))
  else Ok None.

(** * Specification vocabulary *)

(** The value of the property [k] of an object with the fields [fields]. *)
Definition prop (fields : gmap string value) (k : string) : value :=
  default VUndefined (fields !! k).

(** [v] is falsy, or its element 0 can be read and has properties. *)
Definition first_readable (v : value) : Prop :=
  truthy v = false ∨ ∃ x, get_index v 0 = Ok x ∧ nullish x = false.

(** [v] is falsy, or an array whose elements have properties. *)
Definition each_readable (v : value) : Prop :=
  truthy v = false ∨ ∃ rs, v = VArr rs ∧ Forall (λ r, nullish r = false) rs.

(** The author of the record built for an entry. *)
Definition author_of (parsed : gmap string value) (key : string) : res value :=
  get_field (prop parsed key) "userId".

(** The eight rich-content fields, all empty. *)
Definition empty_content : gmap string value :=
  {[ "author" := VStr ""; "authorIcon" := VStr ""; "pretext" := VStr "";
     "title" := VStr ""; "titleLink" := VStr ""; "text" := VStr "";
     "footer" := VStr ""; "borderColor" := VStr "" ]}.

(** The request [getConversationHistory] sends for a channel. *)
Definition history_request (channel : string) : value :=
  VObj {[ "channel" := VStr channel; "limit" := VNum "50" ]}.

(** The spread of the loop body: the record read last wins. *)
Definition merge (result parsed : gmap string value) : gmap string value :=
  parsed ∪ result.

(** The record of an entry that has no more than an author, a timestamp
    and a text. *)
Definition bare_record (author ts text : value) : value :=
  VObj {[ "userId" := author; "timestamp" := ts;
          "isEdited" := VBool false; "text" := text;
          "attachment" := VNull; "reactions" := VArr [];
          "content" := VObj empty_content ]}.

(** The crafted directory response of the round trip. *)
Definition crafted_members : value :=
  VObj {[ "ok" := VBool true;
          "members" :=
            VArr [VObj {[ "id" := VStr "U1"; "name" := VStr "alice";
                          "profile" := VObj {[ "image_72" := VStr "url" ]} ]}] ]}.

(** A remote side that answers the call [method] with [response] and fails
    every other call. *)
Definition answering (method : string) (response : value) : remote :=
  λ method' options,
    if String.eqb method' method then Ok response else Throw TransportError.

Definition exclude_archived : value := VObj {[ "exclude_archived" := VBool true ]}.

(** The three responses of the failing run: one public channel, a groups
    call that reports failure, one direct message. *)
Definition one_failing : remote :=
  λ method options,
    if String.eqb method "channels.list"
    then Ok (VObj {[ "ok" := VBool true;
                     "channels" := VArr [VObj {[ "id" := VStr "C1"; "name" := VStr "general" ]}] ]})
    else if String.eqb method "groups.list"
    then Ok (VObj {[ "ok" := VBool false; "error" := VStr "ratelimited" ]})
    else if String.eqb method "im.list"
    then Ok (VObj {[ "ok" := VBool true;
                     "ims" := VArr [VObj {[ "id" := VStr "D1"; "user" := VStr "U1" ]}] ]})
    else Throw TransportError.

Fixpoint all_chars (p : ascii → bool) (s : string) : bool :=
  match s with
  | EmptyString => true
  | String a s' => p a && all_chars p s'
  end.

(** The text [s] is empty or starts outside the class [p]. *)
Definition stops (p : ascii → bool) (s : string) : Prop :=
  match s with
  | EmptyString => True
  | String a _ => p a = false
  end.

(** A member token of an encoded name: not empty and free of dashes. *)
Definition member (t : string) : Prop := t ≠ "" ∧ all_chars not_dash t = true.

(** The numeric suffix of an encoded name. *)
Definition digits (n : string) : Prop := n ≠ "" ∧ all_chars is_digit n = true.

(** The text of the members after the first, each behind its [--]. *)
Fixpoint further_text (rest : list string) : string :=
  match rest with
  | [] => ""
  | t :: ts => "--" +:+ t +:+ further_text ts
  end.

(** Group 3 of the pattern. *)
Definition member_group : regex := Grp 3 (lit "--" (Plus (Chr not_dash))).

(** The captures after the star has read the members [rest]. *)
Fixpoint caps_after (c : captures) (rest : list string) : captures :=
  match rest with
  | [] => c
  | t :: ts => caps_after (<[3 := "--" +:+ t]> (delete 3 c)) ts
  end.

(** The text of an encoded name: the prefix, the members joined by [--],
    a dash and the numeric suffix. *)
Definition encoded (members : list string) (n : string) : string :=
  "mpdm-" +:+ String.concat "--" members +:+ "-" +:+ n.

(** The captures of a match that read the members [first :: rest]. *)
Definition member_captures (first : string) (rest : list string) : captures :=
  <[2 := further_text rest]> (caps_after (<[1 := first]> ∅) rest).

(** The texts a pattern reads, whatever the order in which the matcher
    tries them. *)
Inductive lang : regex → string → Prop :=
| lang_Chr p a : p a = true → lang (Chr p) (String a "")
| lang_Cat r1 r2 w1 w2 : lang r1 w1 → lang r2 w2 → lang (Cat r1 r2) (w1 +:+ w2)
| lang_Star_nil r : lang (Star r) ""
| lang_Star_cons r w1 w2 : lang r w1 → lang (Star r) w2 → lang (Star r) (w1 +:+ w2)
| lang_Grp i r w : lang r w → lang (Grp i r) w.

(** The raw name contains an encoded name. *)
Definition occurs (raw : string) : Prop :=
  ∃ pre members n post,
    members ≠ [] ∧ Forall member members ∧ digits n
    ∧ raw = pre +:+ encoded members n +:+ post.

(** The value of [v.k], [undefined] where the read throws. *)
Definition field (v : value) (k : string) : value :=
  match get_field v k with
  | Ok x => x
  | Throw _ => VUndefined
  end.

(** An entry [getMessage] can read: it has properties, its files and
    attachments are falsy or start with an element that has properties, its
    reactions are falsy or an array of such elements. *)
Definition readable_entry (raw : value) : Prop :=
  nullish raw = false
  ∧ first_readable (field raw "files")
  ∧ first_readable (field raw "attachments")
  ∧ each_readable (field raw "reactions").

(** The text of [v], empty where the conversion throws. *)
Definition shown (v : value) : string :=
  match ToString v with
  | Ok s => s
  | Throw _ => ""
  end.

(** [v] can be converted to a text, and to a property key. *)
Definition convertible (v : value) : Prop := ∃ s, ToString v = Ok s.

(** The key [getMessage] files an entry under. *)
Definition message_key (raw : value) : string := shown (field raw "ts").

(** An entry [getMessage] normalises: it can be read and its timestamp
    can be converted to a key. *)
Definition normalisable (raw : value) : Prop :=
  readable_entry raw ∧ convertible (field raw "ts").

(** The record of a reaction. *)
Definition reaction_entry (r : value) : value :=
  VObj {[ "name" := field r "name"; "count" := field r "count";
          "userIds" := field r "users" ]}.

(** The rich content read from an attachment. *)
Definition content_of (a : value) : gmap string value :=
  {[ "author" := field a "author_name"; "authorIcon" := field a "author_icon";
     "pretext" := field a "pretext"; "title" := field a "title";
     "titleLink" := field a "title_link"; "text" := field a "text";
     "footer" := field a "footer"; "borderColor" := field a "color" ]}.

(** A directory member [getAllUsers] can read: it has properties and so has
    its profile. *)
Definition readable_member (m : value) : Prop :=
  nullish m = false ∧ nullish (field m "profile") = false.

Definition member_key (m : value) : string := shown (field m "id").

(** A member [getAllUsers] lists: it can be read and its id can be
    converted to a key. *)
Definition listed_member (m : value) : Prop :=
  readable_member m ∧ convertible (field m "id").

(** The directory entry of a member. *)
Definition user_entry (m : value) : value :=
  VObj {[ "id" := field m "id"; "name" := field m "name";
          "imageUrl" := field (field m "profile") "image_72" ]}.

(** A group entry [getChannels] can read: it has properties, and a text as
    name when it is flagged multi-party. *)
Definition readable_group (g : value) : Prop :=
  nullish g = false
  ∧ (truthy (field g "is_mpim") = true → ∃ raw, field g "name" = VStr raw).

(** A direct-message entry [getChannels] can read: it has properties, and
    the directory entry of its partner, if there is one, has properties. *)
Definition readable_direct (users : gmap string value) (d : value) : Prop :=
  nullish d = false
  ∧ ∀ key entry,
      ToPropertyKey (field d "user") = Ok key →
      users !! key = Some entry → nullish entry = false.

(** The element [v[0]], [undefined] where the read throws. *)
Definition first_of (v : value) : value :=
  match get_index v 0 with
  | Ok x => x
  | Throw _ => VUndefined
  end.

(** The attachment of a record: the name and the permalink of the first
    file. *)
Definition attachment_of (files : value) : value :=
  if truthy files
  then VObj {[ "name" := field (first_of files) "name";
               "permalink" := field (first_of files) "permalink" ]}
  else VNull.

(** The reactions of a record. *)
Definition reactions_of (reactions : value) : value :=
  if truthy reactions
  then match reactions with
       | VArr rs => VArr (reaction_entry <$> rs)
       | _ => VUndefined
       end
  else VArr [].

(** The rich content of a record: that of the first attachment. *)
Definition content_for (attachments : value) : gmap string value :=
  if truthy attachments then content_of (first_of attachments) else empty_content.

(** The record [getMessage] builds for an entry it can read. *)
Definition record_of (raw : value) : value :=
  VObj {[ "userId" := if truthy (field raw "user")
                      then field raw "user" else field raw "bot_id";
          "timestamp" := field raw "ts";
          "isEdited" := VBool (truthy (field raw "edited"));
          "text" := field raw "text";
          "attachment" := attachment_of (field raw "files");
          "reactions" := reactions_of (field raw "reactions");
          "content" := VObj (content_for (field raw "attachments")) ]}.

(** What [getMessage] returns for an entry it normalises. *)
Definition parsed_of (m : value) : gmap string value :=
  assign ∅ (message_key m) (record_of m).

(** The history of a list of readable entries. *)
Definition history_of (ms : list value) : gmap string value :=
  foldl merge ∅ (parsed_of <$> ms).

(** The directory built from a list of readable members. *)
Definition add_member (users : gmap string value) (m : value) : gmap string value :=
  assign users (member_key m) (user_entry m).

Definition directory_of (ms : list value) : gmap string value :=
  foldl add_member ∅ ms.

(** The channel kinds that [getChannelInfo] and [markChannel] know. *)
Definition known_kind (type : value) : bool :=
  is_text type "group" || is_text type "channel" || is_text type "im".

(** The remote operation that informs about a channel of a kind, and the
    property of its response that holds the information. *)
Definition info_operations : list (string * (string * string)) :=
  [("group", ("groups.info", "group"));
   ("channel", ("channels.info", "channel"));
   ("im", ("conversations.info", "channel"))].

(** The request of an information or mark call. *)
Definition channel_request (id : value) : value := VObj {[ "channel" := id ]}.

(** The remote operation that marks a channel of a kind as read. *)
Definition mark_operations : list (string * string) :=
  [("channel", "channels.mark"); ("group", "groups.mark"); ("im", "im.mark")].

(** The name the directory [users] shows for the partner [user] of a
    direct message. *)
Definition partner_of (users : gmap string value) (user : value) : value :=
  match users !! shown user with
  | Some entry => field entry "name"
  | None => default user (inherited_name (shown user))
  end.

(** A public channel [getChannels] lists: it has properties and its name
    can be converted to a text. *)
Definition listed_channel (c : value) : Prop :=
  nullish c = false ∧ convertible (field c "name").

(** A group [getChannels] lists: it can be read, and its name can be
    converted to a text when it is no multi-party group. *)
Definition listed_group (g : value) : Prop :=
  readable_group g
  ∧ (truthy (field g "is_mpim") = false → convertible (field g "name")).

(** A direct message [getChannels] lists: it can be read, and its partner
    and the name the directory shows for the partner can be converted to
    texts. *)
Definition listed_direct (users : gmap string value) (d : value) : Prop :=
  readable_direct users d
  ∧ convertible (field d "user")
  ∧ convertible (partner_of users (field d "user")).

(** The three responses are listed entry by entry. *)
Definition listed_lists (users : gmap string value) (cs gs ds : list value) : Prop :=
  Forall listed_channel cs
  ∧ Forall listed_group gs
  ∧ Forall (listed_direct users) ds.

(** The name decoded from a list of members. *)
Definition decoded (members : list string) : string :=
  String.concat ", " ((λ t, "@" +:+ t) <$> members).

(** The value a callback returns, [undefined] where it throws. *)
Definition value_of (r : res value) : value :=
  match r with
  | Ok v => v
  | Throw _ => VUndefined
  end.

(** The three responses can be read entry by entry. *)
Definition readable_lists (users : gmap string value) (cs gs ds : list value) : Prop :=
  Forall (λ c, nullish c = false) cs
  ∧ Forall readable_group gs
  ∧ Forall (readable_direct users) ds.

(** A remote side that answers the three list calls. *)
Definition listing (channels groups ims : value) : remote :=
  λ method options,
    if String.eqb method "channels.list" then Ok channels
    else if String.eqb method "groups.list" then Ok groups
    else if String.eqb method "im.list" then Ok ims
    else Throw TransportError.


(** Induction over values: the elements of an array are values again. *)
Section value_ind.

Context (P : value → Prop).
Context (Hundefined : P VUndefined) (Hnull : P VNull).
Context (Hbool : ∀ b, P (VBool b)) (Hnum : ∀ text, P (VNum text)).
Context (Hstr : ∀ s, P (VStr s)).
Context (Harr : ∀ elems, Forall P elems → P (VArr elems)).
Context (Hobj : ∀ fields, P (VObj fields)).

Fixpoint value_ind (v : value) : P v :=
  match v with
  | VUndefined => Hundefined
  | VNull => Hnull
  | VBool b => Hbool b
  | VNum text => Hnum text
  | VStr s => Hstr s
  | VArr elems =>
      Harr elems
        ((fix go (l : list value) : Forall P l :=
            match l with
            | [] => Forall_nil_2 P
            | x :: l' => Forall_cons_2 P x l' (value_ind x) (go l')
            end) elems)
  | VObj fields => Hobj fields
  end.

End value_ind.

(** No encoded name starts inside [pre], in front of [text]. *)
Definition leftmost (pre text : string) : Prop :=
  ∀ p1 p2 members n post,
    pre = p1 +:+ p2 → p2 ≠ "" →
    members ≠ [] → Forall member members → digits n →
    p2 +:+ text ≠ encoded members n +:+ post.

(** * Properties *)

(** ** Reading JavaScript values *)

Lemma bind_Ok {A B} (a : A) (f : A → res B) : (Ok a ≫= f) = f a.
Proof. reflexivity. Qed.

Lemma bind_Throw {A B} e (f : A → res B) : (Throw e ≫= f) = Throw e.
Proof. reflexivity. Qed.

Lemma get_field_VObj fields k : get_field (VObj fields) k = Ok (prop fields k).
Proof. reflexivity. Qed.

Lemma prop_singleton k v : prop {[ k := v ]} k = v.
Proof. unfold prop. by rewrite lookup_singleton_eq. Qed.

Lemma field_VObj fields k : field (VObj fields) k = prop fields k.
Proof. reflexivity. Qed.

Lemma get_field_field v k : nullish v = false → get_field v k = Ok (field v k).
Proof. unfold field. destruct v; simpl; intros; (discriminate || reflexivity). Qed.

Lemma get_field_nullish v k : nullish v = true → get_field v k = Throw TypeError.
Proof. by destruct v. Qed.

Lemma field_nullish v k : nullish v = true → field v k = VUndefined.
Proof. by destruct v. Qed.

Lemma truthy_has_properties v : truthy v = true → nullish v = false.
Proof. by destruct v. Qed.

Lemma get_index_first v : nullish v = false → get_index v 0 = Ok (first_of v).
Proof. unfold first_of. destruct v; simpl; intros; (discriminate || reflexivity). Qed.

Lemma absent_falsy fields k : fields !! k = None → truthy (prop fields k) = false.
Proof. unfold prop. by intros ->. Qed.

Lemma absent_first_readable fields k : fields !! k = None → first_readable (prop fields k).
Proof. left. by apply absent_falsy. Qed.

Lemma absent_each_readable fields k : fields !! k = None → each_readable (prop fields k).
Proof. left. by apply absent_falsy. Qed.

(** ** Conversion to texts and keys *)

Lemma mapM_res_Throw {A B} (f : A → res B) l e :
  mapM f l = Throw e → ∃ x, x ∈ l ∧ f x = Throw e.
Proof.
  induction l as [|x l IH]; cbn; [discriminate|].
  destruct (f x) as [y|e'] eqn:Hx; cbn.
  - destruct (mapM f l) as [k|e'']; cbn; [discriminate|].
    intros [= ->]. destruct IH as (x' & Hin & Hx'); [done|].
    exists x'. split; [by right | done].
  - intros [= ->]. exists x. split; [by left | done].
Qed.

(** The conversion throws nothing but a [TypeError]. *)
Lemma ToString_TypeError v e : ToString v = Throw e → e = TypeError.
Proof.
  revert e. induction v as [| |b|text|s|elems IH|fields] using value_ind; intros e;
    cbn [ToString]; try discriminate.
  - by destruct b.
  - destruct (mapM _ elems) as [texts|e'] eqn:Helems; cbn; [discriminate|].
    intros [= ->]. apply mapM_res_Throw in Helems as (x & Hin & Hx).
    rewrite Forall_forall in IH. destruct x; try discriminate; by apply (IH _ Hin).
  - destruct (fields !! "toString"); [by intros [= <-] | discriminate].
Qed.

Lemma ToString_dec v :
  (convertible v ∧ ToString v = Ok (shown v))
  ∨ (¬ convertible v ∧ ToString v = Throw TypeError).
Proof.
  unfold convertible, shown. destruct (ToString v) as [s|e] eqn:Hv.
  - left. eauto.
  - right. rewrite (ToString_TypeError v e Hv). split; [by intros [s [=]] | done].
Qed.

Lemma ToString_shown v s : ToString v = Ok s → shown v = s.
Proof. unfold shown. by intros ->. Qed.

Lemma assign_other obj key v : key ≠ "__proto__" → assign obj key v = <[ key := v ]> obj.
Proof. unfold assign. intros Hkey. by destruct (String.eqb_spec key "__proto__"). Qed.

Lemma assign_proto obj v : assign obj "__proto__" v = obj.
Proof. reflexivity. Qed.

Lemma assign_lookup obj key v k x :
  assign obj key v !! k = Some x →
  (k = key ∧ key ≠ "__proto__" ∧ x = v) ∨ obj !! k = Some x.
Proof.
  unfold assign. destruct (String.eqb_spec key "__proto__") as [->|Hkey]; [by right|].
  destruct (decide (key = k)) as [<-|Hne].
  - rewrite lookup_insert_eq. intros [= <-]. by left.
  - rewrite lookup_insert_ne by done. by right.
Qed.

Lemma dom_assign (obj : gmap string value) key v :
  dom (assign obj key v) = dom obj ∪ ({[ key ]} ∖ {[ "__proto__" ]}).
Proof.
  unfold assign. destruct (String.eqb_spec key "__proto__") as [->|Hkey].
  - rewrite difference_diag_L. by rewrite union_empty_r_L.
  - rewrite dom_insert_L. rewrite (comm_L (∪)). f_equal.
    apply set_eq. intros x. rewrite elem_of_difference, !elem_of_singleton.
    split; [intros ->; done | by intros [-> _]].
Qed.

(** ** The message normaliser *)

Lemma first_readable_truthy v :
  truthy v = true → first_readable v ↔ nullish (first_of v) = false.
Proof.
  intros Ht. pose proof (get_index_first v (truthy_has_properties v Ht)) as Hidx.
  split.
  - intros [Hf | (x & Hx & Hnn)]; [congruence|]. rewrite Hidx in Hx. by injection Hx as ->.
  - intros Hnn. right. eauto.
Qed.

(** Each piece of [getMessage] returns on a readable value and throws a
    [TypeError] on any other. *)
Lemma file_attachment_dec files :
  (first_readable files ∧ file_attachment files = Ok (attachment_of files))
  ∨ (¬ first_readable files ∧ file_attachment files = Throw TypeError).
Proof.
  unfold file_attachment, attachment_of. destruct (truthy files) eqn:Ht.
  - rewrite (get_index_first files (truthy_has_properties files Ht)), !bind_Ok.
    rewrite (first_readable_truthy files Ht).
    destruct (nullish (first_of files)) eqn:Hnn.
    + right. split; [discriminate|].
      by rewrite (get_field_nullish _ "name" Hnn), bind_Throw.
    + left. split; [done|].
      by rewrite (get_field_field _ "name" Hnn), !bind_Ok,
        (get_field_field _ "permalink" Hnn), !bind_Ok.
  - left. split; [by left | done].
Qed.

Lemma content_field_dec attachments k :
  (first_readable attachments
   ∧ content_field attachments k
     = Ok (if truthy attachments then field (first_of attachments) k else VStr ""))
  ∨ (¬ first_readable attachments ∧ content_field attachments k = Throw TypeError).
Proof.
  unfold content_field. destruct (truthy attachments) eqn:Ht.
  - rewrite (get_index_first _ (truthy_has_properties _ Ht)), !bind_Ok.
    rewrite (first_readable_truthy _ Ht).
    destruct (nullish (first_of attachments)) eqn:Hnn.
    + right. split; [discriminate|]. by rewrite (get_field_nullish _ k Hnn).
    + left. split; [done|]. by rewrite (get_field_field _ k Hnn).
  - left. split; [by left | done].
Qed.

Lemma reaction_of_dec r :
  (nullish r = false ∧ reaction_of r = Ok (reaction_entry r))
  ∨ (nullish r ≠ false ∧ reaction_of r = Throw TypeError).
Proof.
  unfold reaction_of, reaction_entry. destruct (nullish r) eqn:Hnn.
  - right. split; [discriminate|].
    by rewrite (get_field_nullish _ "name" Hnn), bind_Throw.
  - left. split; [done|].
    by rewrite (get_field_field _ "name" Hnn), (get_field_field _ "count" Hnn),
      (get_field_field _ "users" Hnn), !bind_Ok.
Qed.

(** A map over a list whose callback returns on the elements in [P] and
    throws a [TypeError] on the others. *)
Lemma mapM_res_dec {A B} (f : A → res B) (g : A → B) (P : A → Prop) l :
  (∀ x, (P x ∧ f x = Ok (g x)) ∨ (¬ P x ∧ f x = Throw TypeError)) →
  (Forall P l ∧ mapM f l = Ok (g <$> l))
  ∨ (¬ Forall P l ∧ mapM f l = Throw TypeError).
Proof.
  intros Hf. induction l as [|x l IH]; [left; split; [constructor | reflexivity]|].
  cbn. destruct (Hf x) as [[Hx ->] | [Hx ->]]; cbn.
  - destruct IH as [[Hl ->] | [Hl ->]]; cbn.
    + left. split; [by constructor | done].
    + right. split; [|done]. intros H. inversion H; subst. by apply Hl.
  - right. split; [|done]. intros H. inversion H; subst. by apply Hx.
Qed.

Lemma reaction_list_dec reactions :
  (each_readable reactions ∧ reaction_list reactions = Ok (reactions_of reactions))
  ∨ (¬ each_readable reactions ∧ reaction_list reactions = Throw TypeError).
Proof.
  unfold reaction_list, reactions_of. destruct (truthy reactions) eqn:Ht.
  - destruct reactions as [| |b|z|s|rs|fields]; try discriminate;
      try (right; split; [|reflexivity]; intros [Hf | (rs' & Hrs & _)]; congruence).
    cbn [array_map].
    destruct (mapM_res_dec reaction_of reaction_entry (λ r, nullish r = false) rs)
      as [[Hall ->] | [Hall ->]].
    + intros r. destruct (reaction_of_dec r) as [[? ?] | [? ?]]; [by left | by right].
    + left. split; [|done]. right. eauto.
    + right. split; [|done]. intros [Hf | (rs' & [= <-] & Hall')]; [discriminate | done].
  - left. split; [by left | done].
Qed.

(** [getMessage] returns the record of an entry it normalises, filed under
    the entry's key, and throws a [TypeError] on any other entry. *)
Lemma getMessage_dec raw :
  (normalisable raw ∧ getMessage raw = Ok (parsed_of raw))
  ∨ (¬ normalisable raw ∧ getMessage raw = Throw TypeError).
Proof.
  unfold normalisable, readable_entry, getMessage. destruct (nullish raw) eqn:Hnn.
  - right. split; [intros [[? _] _]; discriminate|].
    by rewrite (get_field_nullish _ "files" Hnn), bind_Throw.
  - rewrite (get_field_field _ "files" Hnn), (get_field_field _ "ts" Hnn),
      (get_field_field _ "user" Hnn), (get_field_field _ "text" Hnn),
      (get_field_field _ "edited" Hnn), (get_field_field _ "bot_id" Hnn),
      (get_field_field _ "attachments" Hnn), (get_field_field _ "reactions" Hnn),
      !bind_Ok.
    destruct (file_attachment_dec (field raw "files")) as [[Hf ->] | [Hf ->]];
      [|right; split; [tauto | reflexivity]].
    rewrite bind_Ok. unfold ToPropertyKey.
    destruct (ToString_dec (field raw "ts")) as [[Hts ->] | [Hts ->]];
      [|right; split; [tauto | reflexivity]].
    rewrite bind_Ok.
    destruct (reaction_list_dec (field raw "reactions")) as [[Hr ->] | [Hr ->]];
      [|right; split; [tauto | reflexivity]].
    destruct (content_field_dec (field raw "attachments") "author_name")
      as [[Ha ->] | [Ha ->]]; [|right; split; [tauto | reflexivity]].
    destruct (content_field_dec (field raw "attachments") "author_icon")
      as [[_ ->] | [? _]]; [|done].
    destruct (content_field_dec (field raw "attachments") "pretext")
      as [[_ ->] | [? _]]; [|done].
    destruct (content_field_dec (field raw "attachments") "title")
      as [[_ ->] | [? _]]; [|done].
    destruct (content_field_dec (field raw "attachments") "title_link")
      as [[_ ->] | [? _]]; [|done].
    destruct (content_field_dec (field raw "attachments") "text")
      as [[_ ->] | [? _]]; [|done].
    destruct (content_field_dec (field raw "attachments") "footer")
      as [[_ ->] | [? _]]; [|done].
    destruct (content_field_dec (field raw "attachments") "color")
      as [[_ ->] | [? _]]; [|done].
    rewrite !bind_Ok. left. split; [done|].
    unfold parsed_of, message_key, record_of, content_for, content_of, empty_content.
    destruct (truthy (field raw "attachments")); reflexivity.
Qed.

(** The object [getMessage] returns for an entry that is an object whose
    pieces can be read and whose timestamp converts to [key]. *)
Lemma getMessage_returns fields key :
  first_readable (prop fields "files") →
  first_readable (prop fields "attachments") →
  each_readable (prop fields "reactions") →
  ToPropertyKey (prop fields "ts") = Ok key →
  getMessage (VObj fields) = Ok (assign ∅ key (record_of (VObj fields))).
Proof.
  intros Hfiles Hatt Hreact Hkey.
  destruct (getMessage_dec (VObj fields)) as [[_ ->] | [Hn _]].
  - unfold parsed_of, message_key. rewrite field_VObj.
    by rewrite (ToString_shown _ _ Hkey).
  - destruct Hn. split; [by split|]. rewrite field_VObj. by exists key.
Qed.

Lemma record_of_bare fields :
  fields !! "files" = None →
  fields !! "attachments" = None →
  fields !! "reactions" = None →
  record_of (VObj fields)
  = VObj {[ "userId" := if truthy (prop fields "user")
                        then prop fields "user" else prop fields "bot_id";
            "timestamp" := prop fields "ts";
            "isEdited" := VBool (truthy (prop fields "edited"));
            "text" := prop fields "text";
            "attachment" := VNull;
            "reactions" := VArr [];
            "content" := VObj empty_content ]}.
Proof.
  intros Hfiles%absent_falsy Hatt%absent_falsy Hreact%absent_falsy.
  unfold record_of, attachment_of, reactions_of, content_for.
  rewrite !field_VObj. by rewrite Hfiles, Hatt, Hreact.
Qed.

(** C8, as the code has it: an entry without [files], [attachments] and
    [reactions] whose timestamp converts to a key other than [__proto__]
    yields, under that key, a record with a null attachment, the eight
    rich-content fields empty and no reactions. *)
Theorem getMessage_bare fields key :
  fields !! "files" = None →
  fields !! "attachments" = None →
  fields !! "reactions" = None →
  ToPropertyKey (prop fields "ts") = Ok key →
  key ≠ "__proto__" →
  getMessage (VObj fields)
  = Ok {[ key :=
            VObj {[ "userId" := if truthy (prop fields "user")
                                then prop fields "user" else prop fields "bot_id";
                    "timestamp" := prop fields "ts";
                    "isEdited" := VBool (truthy (prop fields "edited"));
                    "text" := prop fields "text";
                    "attachment" := VNull;
                    "reactions" := VArr [];
                    "content" :=
                      VObj {[ "author" := VStr ""; "authorIcon" := VStr "";
                              "pretext" := VStr ""; "title" := VStr "";
                              "titleLink" := VStr ""; "text" := VStr "";
                              "footer" := VStr ""; "borderColor" := VStr "" ]} ]} ]}.
Proof.
  intros Hfiles Hatt Hreact Hkey Hproto.
  rewrite (getMessage_returns fields key)
    by auto using absent_first_readable, absent_each_readable.
  rewrite (record_of_bare fields Hfiles Hatt Hreact), (assign_other _ _ _ Hproto).
  by rewrite insert_empty.
Qed.

Lemma getMessage_bare_witness :
  let fields : gmap string value :=
    {[ "ts" := VStr "1.5"; "user" := VStr "U1"; "text" := VStr "hi" ]} in
  getMessage (VObj fields)
  = Ok {[ "1.5" :=
            VObj {[ "userId" := if truthy (prop fields "user")
                                then prop fields "user" else prop fields "bot_id";
                    "timestamp" := prop fields "ts";
                    "isEdited" := VBool (truthy (prop fields "edited"));
                    "text" := prop fields "text";
                    "attachment" := VNull;
                    "reactions" := VArr [];
                    "content" :=
                      VObj {[ "author" := VStr ""; "authorIcon" := VStr "";
                              "pretext" := VStr ""; "title" := VStr "";
                              "titleLink" := VStr ""; "text" := VStr "";
                              "footer" := VStr ""; "borderColor" := VStr "" ]} ]} ]}.
Proof.
  intros fields. apply (getMessage_bare fields "1.5"); try (vm_compute; reflexivity).
  discriminate.
Defined.

(** C8 as stated fails on an entry without [files], [attachments] and
    [reactions] whose timestamp is an object with a [toString] of its own:
    the key of the record cannot be computed and [getMessage] throws, so
    that no record is yielded. *)
Lemma getMessage_bare_unkeyed :
  let fields : gmap string value :=
    {[ "ts" := VObj {[ "toString" := VNum "1" ]}; "user" := VStr "U1";
       "text" := VStr "hi" ]} in
  fields !! "files" = None ∧ fields !! "attachments" = None
  ∧ fields !! "reactions" = None
  ∧ getMessage (VObj fields) = Throw TypeError.
Proof. repeat split; vm_compute; reflexivity. Qed.

(** An entry whose timestamp is the text [__proto__] is read without a
    throw, but the assignment sets the prototype of the result: the object
    returned has no record of its own. *)
Example getMessage_proto_key :
  getMessage (VObj {[ "ts" := VStr "__proto__"; "user" := VStr "U1"; "text" := VStr "hi" ]})
  = Ok ∅.
Proof. vm_compute. reflexivity. Qed.

(** A timestamp that is a number is filed under the text the number
    prints as, the same key as that text itself. *)
Example getMessage_number_key :
  dom <$> getMessage (VObj {[ "ts" := VNum "1e+21" ]})
  = dom <$> getMessage (VObj {[ "ts" := VStr "1e+21" ]}).
Proof. vm_compute. reflexivity. Qed.

(** C6, as the code has it: of an entry that [getMessage] files under a
    key, the author is [user] when that is truthy (a non-empty id) and the
    value of [bot_id] when [user] is absent or falsy. *)
Theorem getMessage_author fields key :
  first_readable (prop fields "files") →
  first_readable (prop fields "attachments") →
  each_readable (prop fields "reactions") →
  ToPropertyKey (prop fields "ts") = Ok key →
  key ≠ "__proto__" →
  ∃ parsed,
    getMessage (VObj fields) = Ok parsed
    ∧ (truthy (prop fields "user") = true →
       author_of parsed key = Ok (prop fields "user"))
    ∧ (truthy (prop fields "user") = false →
       author_of parsed key = Ok (prop fields "bot_id")).
Proof.
  intros Hfiles Hatt Hreact Hkey Hproto.
  rewrite (getMessage_returns fields key Hfiles Hatt Hreact Hkey).
  eexists. split; [reflexivity|].
  rewrite (assign_other _ _ _ Hproto), insert_empty.
  unfold author_of. rewrite prop_singleton. unfold record_of. rewrite !field_VObj.
  split; intros ->; reflexivity.
Qed.

Lemma getMessage_author_witness :
  let fields : gmap string value :=
    {[ "ts" := VStr "1.5"; "user" := VStr "U1"; "bot_id" := VStr "B1" ]} in
  ∃ parsed,
    getMessage (VObj fields) = Ok parsed ∧ author_of parsed "1.5" = Ok (VStr "U1").
Proof.
  intros fields.
  destruct (getMessage_author fields "1.5") as (parsed & Hparsed & Huser & _);
    [left; vm_compute; reflexivity ..|reflexivity|discriminate|].
  exists parsed. split; [exact Hparsed|]. apply Huser. vm_compute. reflexivity.
Defined.

(** C6 as stated fails on an entry whose [user] field is the empty
    string: the author is the bot id. *)
Lemma getMessage_author_empty_user :
  let fields : gmap string value :=
    {[ "ts" := VStr "1.5"; "user" := VStr ""; "bot_id" := VStr "B1" ]} in
  fields !! "user" = Some (VStr "")
  ∧ ∃ parsed,
      getMessage (VObj fields) = Ok parsed
      ∧ author_of parsed "1.5" = Ok (VStr "B1")
      ∧ VStr "B1" ≠ VStr "".
Proof.
  split; [vm_compute; reflexivity|].
  exists {[ "1.5" := bare_record (VStr "B1") (VStr "1.5") VUndefined ]}.
  split; [vm_compute; reflexivity|]. split; [vm_compute; reflexivity|].
  discriminate.
Qed.

(** An entry with a [user] whose timestamp is an object with a [toString]
    of its own gets no record: [getMessage] throws. *)
Example getMessage_unkeyed :
  getMessage (VObj {[ "ts" := VObj {[ "toString" := VNum "1" ]}; "user" := VStr "U1";
                      "bot_id" := VStr "B1" ]})
  = Throw TypeError.
Proof. vm_compute. reflexivity. Qed.

(** C3, as the code has it: an entry whose [files] and [attachments] are
    absent or start with an element that has properties, whose [reactions]
    are absent or an array of such elements, and whose timestamp converts
    to a key, is normalised without a throw; the object returned holds
    the record under that key, unless the key is [__proto__].  The author
    is [user] when that is truthy and the value of [bot_id] otherwise,
    [undefined] when both are absent.  Absent [files], [attachments],
    [reactions] and [edited] degrade to [null], empty strings, the empty
    list and [false]; an absent [text] stays [undefined]. *)
Theorem getMessage_defaults fields key :
  first_readable (prop fields "files") →
  first_readable (prop fields "attachments") →
  each_readable (prop fields "reactions") →
  ToPropertyKey (prop fields "ts") = Ok key →
  ∃ parsed record,
    getMessage (VObj fields) = Ok parsed
    ∧ parsed = assign ∅ key record
    ∧ (key ≠ "__proto__" → parsed = {[ key := record ]})
    ∧ get_field record "userId"
      = Ok (if truthy (prop fields "user") then prop fields "user" else prop fields "bot_id")
    ∧ (fields !! "user" = None → fields !! "bot_id" = None →
       get_field record "userId" = Ok VUndefined)
    ∧ (fields !! "files" = None → get_field record "attachment" = Ok VNull)
    ∧ (fields !! "attachments" = None → get_field record "content" = Ok (VObj empty_content))
    ∧ (fields !! "reactions" = None → get_field record "reactions" = Ok (VArr []))
    ∧ (fields !! "edited" = None → get_field record "isEdited" = Ok (VBool false))
    ∧ (fields !! "text" = None → get_field record "text" = Ok VUndefined).
Proof.
  intros Hfiles Hatt Hreact Hkey.
  rewrite (getMessage_returns fields key Hfiles Hatt Hreact Hkey).
  eexists _, _. split; [reflexivity|]. split; [reflexivity|].
  split; [intros Hproto; by rewrite (assign_other _ _ _ Hproto), insert_empty|].
  unfold record_of, attachment_of, reactions_of, content_for. rewrite !field_VObj.
  repeat split.
  - intros Hu Hb. unfold prop. rewrite Hu, Hb. reflexivity.
  - intros H%absent_falsy. rewrite H. reflexivity.
  - intros H%absent_falsy. rewrite H. reflexivity.
  - intros H%absent_falsy. rewrite H. reflexivity.
  - intros H. unfold prop. rewrite H. reflexivity.
  - intros H. unfold prop. rewrite H. reflexivity.
Qed.

Lemma getMessage_defaults_witness :
  let fields : gmap string value := {[ "ts" := VStr "1.5"; "bot_id" := VStr "B1" ]} in
  ∃ parsed record,
    getMessage (VObj fields) = Ok parsed
    ∧ parsed = {[ "1.5" := record ]}
    ∧ get_field record "userId" = Ok (VStr "B1")
    ∧ get_field record "attachment" = Ok VNull
    ∧ get_field record "text" = Ok VUndefined.
Proof.
  intros fields.
  destruct (getMessage_defaults fields "1.5")
    as (parsed & record & Hp & _ & Hs & Hu & _ & Ha & _ & _ & _ & Ht);
    [left; vm_compute; reflexivity ..|reflexivity|].
  exists parsed, record. split; [exact Hp|]. split; [by apply Hs|].
  split; [exact Hu|]. split; [apply Ha | apply Ht]; vm_compute; reflexivity.
Defined.

(** C3 as stated fails on an entry with neither [user] nor [bot_id]: the
    record has no author id, its [userId] is [undefined]. *)
Lemma getMessage_no_author :
  let fields : gmap string value := {[ "ts" := VStr "1.5"; "text" := VStr "joined" ]} in
  fields !! "user" = None ∧ fields !! "bot_id" = None
  ∧ ∃ parsed,
      getMessage (VObj fields) = Ok parsed
      ∧ author_of parsed "1.5" = Ok VUndefined.
Proof.
  split; [vm_compute; reflexivity|]. split; [vm_compute; reflexivity|].
  exists {[ "1.5" := bare_record VUndefined (VStr "1.5") (VStr "joined") ]}.
  split; vm_compute; reflexivity.
Qed.

(** The guard on [files] tests presence only: an empty array passes it and
    the read of its first element's name throws. *)
Example getMessage_empty_files :
  getMessage (VObj {[ "ts" := VStr "1.5"; "user" := VStr "U1"; "files" := VArr [] ]})
  = Throw TypeError.
Proof. vm_compute. reflexivity. Qed.

(** An entry without a timestamp is filed under the key [undefined]. *)
Example getMessage_no_timestamp :
  dom <$> getMessage (VObj {[ "user" := VStr "U1" ]}) = Ok {[ "undefined" ]}.
Proof. vm_compute. reflexivity. Qed.

(** X1: [getMessage] returns exactly on the entries it normalises, those
    whose pieces it can read and whose timestamp converts to a key; the
    object returned holds one record, under that key, unless the key is
    [__proto__], for which it holds none.  On every other entry
    [getMessage] throws a [TypeError]. *)
Theorem getMessage_returns_iff raw :
  ((∃ parsed, getMessage raw = Ok parsed) ↔ normalisable raw)
  ∧ (∀ key,
       normalisable raw → ToPropertyKey (field raw "ts") = Ok key →
       ∃ record,
         getMessage raw = Ok (if String.eqb key "__proto__" then ∅ else {[ key := record ]}))
  ∧ (¬ normalisable raw → getMessage raw = Throw TypeError).
Proof.
  destruct (getMessage_dec raw) as [[Hr Heq] | [Hr Heq]]; rewrite Heq.
  - split; [split; eauto|]. split; [|done].
    intros key _ Hkey. exists (record_of raw).
    unfold parsed_of, message_key, assign. rewrite (ToString_shown _ _ Hkey).
    destruct (String.eqb key "__proto__"); [done | by rewrite insert_empty].
  - split; [split; [intros [? [=]] | done]|]. split; [done | done].
Qed.

Lemma getMessage_returns_iff_witness :
  let good := VObj {[ "ts" := VStr "1.5"; "files" := VArr [VObj ∅] ]} in
  let bad := VObj {[ "ts" := VStr "1.5"; "files" := VArr [VNull] ]} in
  (∃ record, getMessage good = Ok {[ "1.5" := record ]})
  ∧ getMessage bad = Throw TypeError.
Proof.
  intros good bad. split.
  - destruct (getMessage_returns_iff good) as (_ & Hreturns & _).
    apply (Hreturns "1.5"); [|reflexivity].
    split; [|by exists "1.5"]. split; [reflexivity|].
    split; [right; exists (VObj ∅); by vm_compute|].
    split; left; vm_compute; reflexivity.
  - destruct (getMessage_returns_iff bad) as (_ & _ & Hthrows). apply Hthrows.
    intros [(_ & [Hf | (x & Hx & Hnn)] & _) _]; vm_compute in *; [discriminate|].
    injection Hx as <-. discriminate.
Defined.

(** X2: of the files and of the attachments of an entry only the first
    counts: the record's attachment is the name and the permalink of the
    first file, its rich content is read from the first attachment. *)
Theorem getMessage_first_only raw key :
  readable_entry raw →
  ToPropertyKey (field raw "ts") = Ok key →
  key ≠ "__proto__" →
  ∃ record,
    getMessage raw = Ok {[ key := record ]}
    ∧ (∀ f more,
         field raw "files" = VArr (f :: more) →
         get_field record "attachment"
         = Ok (VObj {[ "name" := field f "name"; "permalink" := field f "permalink" ]}))
    ∧ (∀ a more,
         field raw "attachments" = VArr (a :: more) →
         get_field record "content" = Ok (VObj (content_of a))).
Proof.
  intros Hr Hkey Hproto.
  destruct (getMessage_dec raw) as [[_ Heq] | [Hn _]]; [|destruct Hn; split; [done | by exists key]].
  exists (record_of raw). rewrite Heq. unfold parsed_of, message_key.
  rewrite (ToString_shown _ _ Hkey), (assign_other _ _ _ Hproto), insert_empty.
  split; [done|]. unfold record_of. split.
  - intros f more ->. reflexivity.
  - intros a more ->. reflexivity.
Qed.

Lemma getMessage_first_only_witness :
  let f1 := VObj {[ "name" := VStr "a.png"; "permalink" := VStr "p1" ]} in
  let f2 := VObj {[ "name" := VStr "b.png"; "permalink" := VStr "p2" ]} in
  let raw := VObj {[ "ts" := VStr "1.5"; "files" := VArr [f1; f2] ]} in
  ∃ record,
    getMessage raw = Ok {[ "1.5" := record ]}
    ∧ get_field record "attachment"
      = Ok (VObj {[ "name" := field f1 "name"; "permalink" := field f1 "permalink" ]}).
Proof.
  intros f1 f2 raw.
  destruct (getMessage_first_only raw "1.5") as (record & Hrecord & Hfile & _).
  - split; [reflexivity|].
    split; [right; exists f1; by vm_compute|].
    split; left; vm_compute; reflexivity.
  - reflexivity.
  - discriminate.
  - exists record. split; [exact Hrecord|]. apply (Hfile f1 [f2]). vm_compute. reflexivity.
Defined.

(** X3: the reactions of an entry are normalised one by one and in order,
    each to its name, its count and its users as [userIds]. *)
Theorem getMessage_reactions raw key rs :
  readable_entry raw →
  ToPropertyKey (field raw "ts") = Ok key →
  key ≠ "__proto__" →
  field raw "reactions" = VArr rs →
  ∃ record,
    getMessage raw = Ok {[ key := record ]}
    ∧ get_field record "reactions" = Ok (VArr (reaction_entry <$> rs)).
Proof.
  intros Hr Hkey Hproto Hrs.
  destruct (getMessage_dec raw) as [[_ Heq] | [Hn _]]; [|destruct Hn; split; [done | by exists key]].
  exists (record_of raw). rewrite Heq. unfold parsed_of, message_key.
  rewrite (ToString_shown _ _ Hkey), (assign_other _ _ _ Hproto), insert_empty.
  split; [done|]. unfold record_of. rewrite Hrs. reflexivity.
Qed.

Lemma getMessage_reactions_witness :
  let r1 := VObj {[ "name" := VStr "tada"; "count" := VNum "2";
                    "users" := VArr [VStr "U1"; VStr "U2"] ]} in
  let raw := VObj {[ "ts" := VStr "1.5"; "reactions" := VArr [r1] ]} in
  ∃ record,
    getMessage raw = Ok {[ "1.5" := record ]}
    ∧ get_field record "reactions" = Ok (VArr (reaction_entry <$> [r1])).
Proof.
  intros r1 raw.
  apply (getMessage_reactions raw "1.5" [r1]);
    [|reflexivity|discriminate|vm_compute; reflexivity].
  split; [reflexivity|]. split; [left; vm_compute; reflexivity|].
  split; [left; vm_compute; reflexivity|].
  right. exists [r1]. split; [vm_compute; reflexivity|]. by repeat constructor.
Defined.

(** ** Promise chains *)

Lemma client_call_ok (api : remote) method options fields :
  api method options = Ok (VObj fields) →
  truthy (prop fields "ok") = true →
  client_call api method options = Fulfilled (VObj fields).
Proof. intros Hresp Hok. unfold client_call. by rewrite Hresp, get_field_VObj, Hok. Qed.

Lemma client_call_truthy (api : remote) method options response :
  api method options = Ok response →
  truthy (field response "ok") = true →
  client_call api method options = Fulfilled response.
Proof.
  intros Hresp Hok. unfold client_call. rewrite Hresp.
  destruct (nullish response) eqn:Hnn.
  - by rewrite (field_nullish _ "ok" Hnn) in Hok.
  - by rewrite (get_field_field _ "ok" Hnn), Hok.
Qed.

Lemma client_call_failed (api : remote) method options fields :
  api method options = Ok (VObj fields) →
  truthy (prop fields "ok") = false →
  client_call api method options = Rejected PlatformError.
Proof. intros Hresp Hok. unfold client_call. by rewrite Hresp, get_field_VObj, Hok. Qed.

Lemma client_call_transport (api : remote) method options e :
  api method options = Throw e → client_call api method options = Rejected e.
Proof. intros Hresp. unfold client_call. by rewrite Hresp. Qed.

Lemma run_bind {A B} (api : remote) (p : prog A) (f : A → prog B) :
  run api (p ≫= f)
  = match run api p with
    | Fulfilled a => run api (f a)
    | Rejected e => Rejected e
    end.
Proof.
  induction p as [a|e|method options k IH]; [reflexivity..|].
  cbn. destruct (client_call api method options); [apply IH | reflexivity].
Qed.

Lemma run_then {A} (api : remote) method options (f : value → res A) response :
  client_call api method options = Fulfilled response →
  run api (then_ (apiCall method options) f)
  = match f response with Ok a => Fulfilled a | Throw e => Rejected e end.
Proof.
  intros Hresp. unfold then_, apiCall. cbn. rewrite Hresp. cbn.
  by destruct (f response).
Qed.

Lemma run_then_rejected {A} (api : remote) method options (f : value → res A) e :
  client_call api method options = Rejected e →
  run api (then_ (apiCall method options) f) = Rejected e.
Proof. intros Hresp. unfold then_, apiCall. cbn. by rewrite Hresp. Qed.

Lemma calls_then {A} (api : remote) method options (f : value → res A) :
  calls api (then_ (apiCall method options) f) = [(method, options)].
Proof.
  unfold then_, apiCall. cbn.
  destruct (client_call api method options) as [response|e]; [|done].
  cbn. by destruct (f response).
Qed.

(** The callbacks on a response that does not report success.  With the
    web client of the source no callback is handed such a response. *)
Lemma users_of_response_failed fields :
  truthy (prop fields "ok") = false → users_of_response (VObj fields) = Ok VUndefined.
Proof. intros Hok. unfold users_of_response. by rewrite !get_field_VObj, !bind_Ok, Hok. Qed.

Lemma bot_of_response_failed fields :
  truthy (prop fields "ok") = false → bot_of_response (VObj fields) = Ok (VObj ∅).
Proof. intros Hok. unfold bot_of_response. by rewrite !get_field_VObj, !bind_Ok, Hok. Qed.

Lemma history_of_response_failed fields :
  truthy (prop fields "ok") = false → history_of_response (VObj fields) = Ok ∅.
Proof. intros Hok. unfold history_of_response. by rewrite !get_field_VObj, !bind_Ok, Hok. Qed.

(** ** The conversation history *)

Lemma forEach_list_mapM (ms : list value) (st : gmap string value) :
  forEach_list (λ result message, parsed ← getMessage message; Ok (parsed ∪ result)) ms st
  = match mapM getMessage ms with
    | Ok ps => Ok (foldl merge st ps)
    | Throw e => Throw e
    end.
Proof.
  revert st. induction ms as [|m ms IH]; intros st; [reflexivity|].
  cbn. destruct (getMessage m) as [p|e]; [|reflexivity].
  cbn. rewrite IH. by destruct (mapM getMessage ms).
Qed.

Lemma run_getConversationHistory (api : remote) channel fields :
  api "conversations.history" (history_request channel) = Ok (VObj fields) →
  truthy (prop fields "ok") = true →
  run api (getConversationHistory channel)
  = match history_of_response (VObj fields) with
    | Ok result => Fulfilled result
    | Throw e => Rejected e
    end.
Proof.
  intros Hresp Hok. unfold getConversationHistory.
  apply run_then. by apply client_call_ok.
Qed.




(** ** The history as a whole *)

Lemma history_of_response_dec fields ms :
  truthy (prop fields "ok") = true →
  prop fields "messages" = VArr ms →
  (Forall normalisable ms ∧ history_of_response (VObj fields) = Ok (history_of ms))
  ∨ (¬ Forall normalisable ms ∧ history_of_response (VObj fields) = Throw TypeError).
Proof.
  intros Hok Hms. unfold history_of_response.
  rewrite !get_field_VObj, !bind_Ok, Hok, Hms. cbn [forEach].
  rewrite forEach_list_mapM.
  destruct (mapM_res_dec getMessage parsed_of normalisable ms getMessage_dec)
    as [[Hall ->] | [Hall ->]]; [by left | by right].
Qed.

(** ** Last entry wins *)

Lemma foldl_merge_absent (ps : list (gmap string value)) st key :
  Forall (λ p, p !! key = None) ps → foldl merge st ps !! key = st !! key.
Proof.
  revert st. induction ps as [|p ps IH]; intros st Hall; [reflexivity|].
  inversion Hall as [|? ? Hp Hps]; subst. cbn. rewrite (IH _ Hps).
  unfold merge. by rewrite lookup_union_r.
Qed.

Lemma foldl_merge_last (before after : list (gmap string value)) parsed st key record :
  parsed !! key = Some record →
  Forall (λ p, p !! key = None) after →
  foldl merge st (before ++ parsed :: after) !! key = Some record.
Proof.
  intros Hkey Hafter. rewrite foldl_app. cbn.
  rewrite (foldl_merge_absent _ _ _ Hafter). unfold merge.
  by apply lookup_union_Some_l.
Qed.

Lemma parsed_of_other m key :
  message_key m ≠ key → parsed_of m !! key = None.
Proof.
  intros Hne. unfold parsed_of, assign.
  destruct (String.eqb (message_key m) "__proto__"); [done|].
  by rewrite lookup_insert_ne.
Qed.

(** C10, as the code has it: in the history of a successful response whose
    entries are all normalised, the record under a key other than
    [__proto__] that entries share is the one normalised from the last of
    these entries. *)
Theorem getConversationHistory_last_wins (api : remote) channel fields
    before m after key :
  api "conversations.history" (history_request channel) = Ok (VObj fields) →
  truthy (prop fields "ok") = true →
  prop fields "messages" = VArr (before ++ m :: after) →
  Forall normalisable (before ++ m :: after) →
  ToPropertyKey (field m "ts") = Ok key →
  key ≠ "__proto__" →
  Forall (λ m', ToPropertyKey (field m' "ts") ≠ Ok key) after →
  ∃ result record,
    run api (getConversationHistory channel) = Fulfilled result
    ∧ getMessage m = Ok {[ key := record ]}
    ∧ result !! key = Some record.
Proof.
  intros Hresp Hok Hms Hall Hkey Hproto Hafter.
  rewrite (run_getConversationHistory _ _ _ Hresp Hok).
  destruct (history_of_response_dec fields _ Hok Hms) as [[_ ->] | [Hn _]]; [|done].
  assert (parsed_of m = {[ key := record_of m ]}) as Hparsed.
  { unfold parsed_of, message_key.
    by rewrite (ToString_shown _ _ Hkey), (assign_other _ _ _ Hproto), insert_empty. }
  exists (history_of (before ++ m :: after)), (record_of m).
  split; [done|]. split.
  - apply Forall_app in Hall as [_ Hrest]. inversion Hrest as [|? ? Hm _]; subst.
    destruct (getMessage_dec m) as [[_ ->] | [Hn _]]; [by rewrite Hparsed | done].
  - unfold history_of. rewrite fmap_app, fmap_cons.
    apply foldl_merge_last; [by rewrite Hparsed, lookup_singleton_eq|].
    apply Forall_fmap. apply Forall_app in Hall as [_ Hrest].
    inversion Hrest as [|? ? _ Hafter']; subst.
    rewrite Forall_forall in Hafter, Hafter'. apply Forall_forall. intros m' Hin.
    apply parsed_of_other. intros Heq.
    destruct (Hafter' m' Hin) as [_ Hconv]. apply (Hafter m' Hin).
    unfold message_key in Heq. unfold ToPropertyKey.
    destruct (ToString_dec (field m' "ts")) as [[_ ->] | [Hn _]]; [by rewrite Heq | done].
Qed.

Lemma getConversationHistory_last_wins_witness :
  let m1 := VObj {[ "ts" := VStr "1"; "text" := VStr "a" ]} in
  let m2 := VObj {[ "ts" := VStr "1"; "text" := VStr "b" ]} in
  let fields : gmap string value :=
    {[ "ok" := VBool true; "messages" := VArr [m1; m2] ]} in
  let api := answering "conversations.history" (VObj fields) in
  ∃ result record,
    run api (getConversationHistory "C1") = Fulfilled result
    ∧ getMessage m2 = Ok {[ "1" := record ]}
    ∧ result !! "1" = Some record.
Proof.
  intros m1 m2 fields api.
  apply (getConversationHistory_last_wins api "C1" fields [m1] m2 [] "1").
  - reflexivity.
  - vm_compute; reflexivity.
  - vm_compute; reflexivity.
  - repeat constructor; try (left; vm_compute; reflexivity); by eexists.
  - reflexivity.
  - discriminate.
  - constructor.
Defined.

(** C10 as stated fails on two successful responses: two entries that
    share the timestamp [__proto__] leave no record under that key in the
    mapping, and two entries that share a timestamp beside an entry that
    cannot be read leave no mapping, the promise is rejected. *)
Lemma getConversationHistory_no_record :
  let m1 := VObj {[ "ts" := VStr "__proto__"; "text" := VStr "a" ]} in
  let m2 := VObj {[ "ts" := VStr "__proto__"; "text" := VStr "b" ]} in
  let n1 := VObj {[ "ts" := VStr "1"; "text" := VStr "a" ]} in
  let n2 := VObj {[ "ts" := VStr "1"; "text" := VStr "b" ]} in
  let n3 := VObj {[ "ts" := VStr "2"; "files" := VArr [] ]} in
  let answer (ms : list value) :=
    answering "conversations.history"
      (VObj {[ "ok" := VBool true; "messages" := VArr ms ]}) in
  (∃ result,
     run (answer [m1; m2]) (getConversationHistory "C1") = Fulfilled result
     ∧ result !! "__proto__" = None)
  ∧ run (answer [n1; n2; n3]) (getConversationHistory "C1") = Rejected TypeError.
Proof.
  intros m1 m2 n1 n2 n3 answer. split.
  - exists ∅. split; vm_compute; reflexivity.
  - vm_compute. reflexivity.
Qed.

(** X4: a history response that reports success is normalised as a whole or
    not at all: the promise is fulfilled when every entry is normalised,
    and rejected with a [TypeError] when one entry is not or when
    [messages] is no array. *)
Theorem getConversationHistory_all_or_nothing (api : remote) channel fields :
  api "conversations.history" (history_request channel) = Ok (VObj fields) →
  truthy (prop fields "ok") = true →
  (∀ ms, prop fields "messages" = VArr ms → Forall normalisable ms →
         ∃ result, run api (getConversationHistory channel) = Fulfilled result)
  ∧ (∀ ms, prop fields "messages" = VArr ms → ¬ Forall normalisable ms →
           run api (getConversationHistory channel) = Rejected TypeError)
  ∧ ((∀ ms, prop fields "messages" ≠ VArr ms) →
     run api (getConversationHistory channel) = Rejected TypeError).
Proof.
  intros Hresp Hok. rewrite (run_getConversationHistory _ _ _ Hresp Hok).
  split; [|split].
  - intros ms Hms Hall.
    destruct (history_of_response_dec fields ms Hok Hms) as [[_ ->] | [Hn _]]; [eauto | done].
  - intros ms Hms Hall.
    destruct (history_of_response_dec fields ms Hok Hms) as [[Hy _] | [_ ->]]; done.
  - intros Hms. unfold history_of_response.
    rewrite !get_field_VObj, !bind_Ok, Hok.
    destruct (prop fields "messages") as [| | | | |ms|]; try reflexivity.
    by destruct (Hms ms).
Qed.

Lemma getConversationHistory_all_or_nothing_witness :
  let broken : gmap string value :=
    {[ "ok" := VBool true;
       "messages" := VArr [VObj {[ "ts" := VStr "2" ]};
                           VObj {[ "ts" := VStr "1"; "attachments" := VArr [] ]}] ]} in
  run (answering "conversations.history" (VObj broken)) (getConversationHistory "C1")
  = Rejected TypeError.
Proof.
  intros broken.
  destruct (getConversationHistory_all_or_nothing
              (answering "conversations.history" (VObj broken)) "C1" broken)
    as (_ & Hrejected & _); [reflexivity | vm_compute; reflexivity |].
  eapply Hrejected; [vm_compute; reflexivity|].
  intros Hall. inversion Hall as [|? ? _ Hrest]; subst.
  inversion Hrest as [|? ? [(_ & _ & [Hf | (x & Hx & Hnn)] & _) _] _]; subst;
    vm_compute in *; [discriminate|].
  injection Hx as <-. discriminate.
Defined.

Lemma dom_foldl_merge (ps : list (gmap string value)) st :
  dom (foldl merge st ps) = dom st ∪ ⋃ (dom <$> ps).
Proof.
  revert st. induction ps as [|p ps IH]; intros st; cbn.
  - by rewrite union_empty_r_L.
  - rewrite IH. unfold merge. rewrite dom_union_L.
    by rewrite (comm_L (∪) (dom p)), <- (assoc_L (∪)).
Qed.

Lemma dom_history_of ms :
  dom (history_of ms) = list_to_set (message_key <$> ms) ∖ {[ "__proto__" ]}.
Proof.
  unfold history_of. rewrite dom_foldl_merge, dom_empty_L, union_empty_l_L.
  induction ms as [|m ms IH]; [cbn; by rewrite empty_difference_L|].
  cbn. rewrite IH. unfold parsed_of.
  rewrite dom_assign, dom_empty_L, union_empty_l_L.
  symmetry. apply (difference_union_distr_l_L (A:=string)).
Qed.

Lemma size_list_to_set_le (l : list string) : size (list_to_set l : gset string) ≤ length l.
Proof.
  induction l as [|x l IH]; [by rewrite list_to_set_nil, size_empty|].
  rewrite list_to_set_cons. cbn.
  destruct (decide (x ∈ (list_to_set l : gset string))) as [Hin|Hout].
  - rewrite (subseteq_union_1_L {[x]}) by (by apply singleton_subseteq_l). lia.
  - rewrite size_union by (by apply disjoint_singleton_l). rewrite size_singleton. lia.
Qed.

Lemma size_keys (l : list string) :
  size ((list_to_set l : gset string) ∖ {[ "__proto__" ]}) ≤ length l
  ∧ (NoDup l → "__proto__" ∉ l →
     size ((list_to_set l : gset string) ∖ {[ "__proto__" ]}) = length l).
Proof.
  split.
  - etrans; [apply subseteq_size, subseteq_difference_l; reflexivity|].
    apply size_list_to_set_le.
  - intros Hnodup Hproto. rewrite difference_disjoint_L.
    + by apply size_list_to_set.
    + apply disjoint_singleton_r. by rewrite elem_of_list_to_set.
Qed.

(** X5: the history of a page whose entries are all normalised has one
    record for every distinct key of an entry but [__proto__], and for no
    other key: it is never cut short otherwise, and it has as many records
    as entries when the keys differ and none is [__proto__]. *)
Theorem getConversationHistory_keys (api : remote) channel fields ms :
  api "conversations.history" (history_request channel) = Ok (VObj fields) →
  truthy (prop fields "ok") = true →
  prop fields "messages" = VArr ms →
  Forall normalisable ms →
  ∃ result,
    run api (getConversationHistory channel) = Fulfilled result
    ∧ dom result = list_to_set (message_key <$> ms) ∖ {[ "__proto__" ]}
    ∧ size result ≤ length ms
    ∧ (NoDup (message_key <$> ms) → "__proto__" ∉ message_key <$> ms →
       size result = length ms).
Proof.
  intros Hresp Hok Hms Hall. rewrite (run_getConversationHistory _ _ _ Hresp Hok).
  destruct (history_of_response_dec fields ms Hok Hms) as [[_ ->] | [Hn _]]; [|done].
  exists (history_of ms). split; [done|]. split; [apply dom_history_of|].
  rewrite <- size_dom, dom_history_of.
  destruct (size_keys (message_key <$> ms)) as [Hle Heq].
  rewrite length_fmap in Hle, Heq. done.
Qed.

Lemma getConversationHistory_keys_witness :
  let m1 := VObj {[ "ts" := VStr "2"; "text" := VStr "b" ]} in
  let m2 := VObj {[ "ts" := VStr "1"; "text" := VStr "a" ]} in
  let fields : gmap string value :=
    {[ "ok" := VBool true; "messages" := VArr [m1; m2] ]} in
  ∃ result,
    run (answering "conversations.history" (VObj fields)) (getConversationHistory "C1")
    = Fulfilled result
    ∧ dom result = list_to_set (message_key <$> [m1; m2]) ∖ {[ "__proto__" ]}
    ∧ size result = length [m1; m2].
Proof.
  intros m1 m2 fields.
  destruct (getConversationHistory_keys
              (answering "conversations.history" (VObj fields)) "C1" fields [m1; m2])
    as (result & Hrun & Hdom & _ & Hsize).
  - reflexivity.
  - vm_compute; reflexivity.
  - vm_compute; reflexivity.
  - repeat constructor; try (left; vm_compute; reflexivity); by eexists.
  - exists result. split; [exact Hrun|]. split; [exact Hdom|]. apply Hsize.
    + apply (bool_decide_unpack _). vm_compute. reflexivity.
    + apply (bool_decide_unpack _). vm_compute. reflexivity.
Defined.

Lemma foldl_merge_lookup (ps : list (gmap string value)) st key record :
  foldl merge st ps !! key = Some record →
  st !! key = Some record ∨ ∃ p, p ∈ ps ∧ p !! key = Some record.
Proof.
  revert st. induction ps as [|p ps IH]; intros st; cbn; [by left|].
  intros [Hst | (q & Hq & Hkey)]%IH.
  - unfold merge in Hst. apply lookup_union_Some_raw in Hst as [Hp | [_ Hst]].
    + right. exists p. split; [by left | done].
    + by left.
  - right. exists q. split; [by right | done].
Qed.

(** X6: every record of a history is the normalisation of one of the
    entries and lies under the key of its own timestamp. *)
Theorem getConversationHistory_records (api : remote) channel fields ms :
  api "conversations.history" (history_request channel) = Ok (VObj fields) →
  truthy (prop fields "ok") = true →
  prop fields "messages" = VArr ms →
  Forall normalisable ms →
  ∃ result,
    run api (getConversationHistory channel) = Fulfilled result
    ∧ ∀ key record,
        result !! key = Some record →
        ∃ m, m ∈ ms
             ∧ getMessage m = Ok {[ key := record ]}
             ∧ get_field record "timestamp" = Ok (field m "ts")
             ∧ ToPropertyKey (field m "ts") = Ok key.
Proof.
  intros Hresp Hok Hms Hall. rewrite (run_getConversationHistory _ _ _ Hresp Hok).
  destruct (history_of_response_dec fields ms Hok Hms) as [[_ ->] | [Hn _]]; [|done].
  exists (history_of ms). split; [done|]. intros key record Hkey.
  apply foldl_merge_lookup in Hkey as [Hempty | (p & Hp & Hkey)]; [done|].
  apply list_elem_of_fmap in Hp as (m & -> & Hm). exists m. split; [done|].
  rewrite Forall_forall in Hall. destruct (Hall m Hm) as [_ Hconv].
  destruct (getMessage_dec m) as [[_ ->] | [Hn _]]; [|by destruct (Hn (Hall m Hm))].
  unfold parsed_of in *.
  apply assign_lookup in Hkey as [(-> & Hproto & ->) | Hempty]; [|done].
  rewrite (assign_other _ _ _ Hproto), insert_empty.
  split; [done|]. split; [done|]. unfold ToPropertyKey, message_key.
  by destruct (ToString_dec (field m "ts")) as [[_ ->] | [Hn _]].
Qed.

Lemma getConversationHistory_records_witness :
  let m1 := VObj {[ "ts" := VStr "2"; "text" := VStr "b" ]} in
  let fields : gmap string value := {[ "ok" := VBool true; "messages" := VArr [m1] ]} in
  ∃ result,
    run (answering "conversations.history" (VObj fields)) (getConversationHistory "C1")
    = Fulfilled result
    ∧ ∀ key record,
        result !! key = Some record →
        ∃ m, m ∈ [m1]
             ∧ getMessage m = Ok {[ key := record ]}
             ∧ get_field record "timestamp" = Ok (field m "ts")
             ∧ ToPropertyKey (field m "ts") = Ok key.
Proof.
  intros m1 fields.
  apply (getConversationHistory_records
           (answering "conversations.history" (VObj fields)) "C1" fields [m1]).
  - reflexivity.
  - vm_compute; reflexivity.
  - vm_compute; reflexivity.
  - repeat constructor; try (left; vm_compute; reflexivity); by eexists.
Defined.

(** ** The user directory *)

(** C9: the crafted response with the one member U1 yields exactly the
    mapping from U1 to its id, name and image. *)
Theorem getAllUsers_crafted (api : remote) :
  api "users.list" (VObj ∅) = Ok crafted_members →
  run api getAllUsers
  = Fulfilled
      (VObj {[ "U1" := VObj {[ "id" := VStr "U1"; "name" := VStr "alice";
                               "imageUrl" := VStr "url" ]} ]}).
Proof.
  intros Hresp. unfold getAllUsers.
  rewrite (run_then _ _ _ _ crafted_members)
    by (apply client_call_ok; [exact Hresp | vm_compute; reflexivity]).
  vm_compute. reflexivity.
Qed.

Lemma getAllUsers_crafted_witness :
  run (answering "users.list" crafted_members) getAllUsers
  = Fulfilled
      (VObj {[ "U1" := VObj {[ "id" := VStr "U1"; "name" := VStr "alice";
                               "imageUrl" := VStr "url" ]} ]}).
Proof. apply (getAllUsers_crafted (answering "users.list" crafted_members)). reflexivity. Defined.

(** C4 on the code: when the response to the directory call or to the bot
    lookup does not report success, the web client rejects the call and
    the promise of the operation is rejected with the client's platform
    error: the operation yields no mapping. *)
Theorem getAllUsers_failed (api : remote) fields botId bot_fields :
  api "users.list" (VObj ∅) = Ok (VObj fields) →
  truthy (prop fields "ok") = false →
  api "bots.info" (VObj {[ "bot" := VStr botId ]}) = Ok (VObj bot_fields) →
  truthy (prop bot_fields "ok") = false →
  run api getAllUsers = Rejected PlatformError
  ∧ run api (getBotInfo botId) = Rejected PlatformError.
Proof.
  intros Husers Hok Hbot Hok'. unfold getAllUsers, getBotInfo.
  split; apply run_then_rejected; by eapply client_call_failed.
Qed.

Lemma getAllUsers_failed_witness :
  let api : remote :=
    λ _ _, Ok (VObj {[ "ok" := VBool false; "error" := VStr "invalid_auth" ]}) in
  run api getAllUsers = Rejected PlatformError
  ∧ run api (getBotInfo "B1") = Rejected PlatformError.
Proof.
  intros api.
  apply (getAllUsers_failed api
           {[ "ok" := VBool false; "error" := VStr "invalid_auth" ]} "B1"
           {[ "ok" := VBool false; "error" := VStr "invalid_auth" ]});
    reflexivity.
Defined.

(** ** The user directory as a whole *)

(** A loop over a list whose body updates the state on the elements in [P]
    and throws a [TypeError] on the others. *)
Lemma forEach_list_dec {S} (f : S → value → res S) (g : S → value → S)
    (P : value → Prop) l st :
  (∀ x, (P x ∧ ∀ st, f st x = Ok (g st x)) ∨ (¬ P x ∧ ∀ st, f st x = Throw TypeError)) →
  (Forall P l ∧ forEach_list f l st = Ok (foldl g st l))
  ∨ (¬ Forall P l ∧ forEach_list f l st = Throw TypeError).
Proof.
  intros Hf. revert st. induction l as [|x l IH]; intros st;
    [left; split; [constructor | reflexivity]|].
  cbn. destruct (Hf x) as [[Hx Heq] | [Hx Heq]]; rewrite Heq; cbn.
  - destruct (IH (g st x)) as [[Hl ->] | [Hl ->]].
    + left. split; [by constructor | done].
    + right. split; [|done]. intros H. inversion H; subst. by apply Hl.
  - right. split; [|done]. intros H. inversion H; subst. by apply Hx.
Qed.

Lemma users_of_response_dec fields ms :
  truthy (prop fields "ok") = true →
  prop fields "members" = VArr ms →
  (Forall listed_member ms
   ∧ users_of_response (VObj fields) = Ok (VObj (directory_of ms)))
  ∨ (¬ Forall listed_member ms ∧ users_of_response (VObj fields) = Throw TypeError).
Proof.
  intros Hok Hms. unfold users_of_response.
  rewrite !get_field_VObj, !bind_Ok, Hok, Hms. cbn [forEach].
  match goal with
  | |- context [forEach_list ?f ms ∅] =>
      destruct (forEach_list_dec f add_member listed_member ms ∅)
        as [[Hall ->] | [Hall ->]]
  end; [|by left|by right].
  intros m. unfold listed_member, readable_member, add_member, member_key, user_entry.
  destruct (nullish m) eqn:Hm.
  - right. split; [intros [[? _] _]; discriminate|]. intros st.
    by rewrite (get_field_nullish _ "id" Hm), bind_Throw.
  - destruct (ToString_dec (field m "id")) as [[Hid Heq] | [Hid Heq]]; cycle 1.
    { right. split; [tauto|]. intros st.
      rewrite (get_field_field _ "id" Hm), bind_Ok. unfold ToPropertyKey.
      by rewrite Heq. }
    destruct (nullish (field m "profile")) eqn:Hp.
    + right. split; [intros [[_ ?] _]; discriminate|]. intros st.
      rewrite (get_field_field _ "id" Hm), bind_Ok. unfold ToPropertyKey.
      rewrite Heq, bind_Ok, (get_field_field _ "name" Hm), bind_Ok.
      rewrite (get_field_field _ "profile" Hm), bind_Ok.
      by rewrite (get_field_nullish _ "image_72" Hp), bind_Throw.
    + left. split; [done|]. intros st.
      rewrite (get_field_field _ "id" Hm), bind_Ok. unfold ToPropertyKey.
      rewrite Heq, bind_Ok, (get_field_field _ "name" Hm), bind_Ok.
      rewrite (get_field_field _ "profile" Hm), bind_Ok.
      by rewrite (get_field_field _ "image_72" Hp), bind_Ok.
Qed.

Lemma directory_of_lookup ms st k u :
  foldl add_member st ms !! k = Some u →
  st !! k = Some u
  ∨ ∃ m, m ∈ ms ∧ u = user_entry m ∧ member_key m = k ∧ k ≠ "__proto__".
Proof.
  revert st. induction ms as [|m ms IH]; intros st; cbn; [by left|].
  intros [Hst | (m' & Hm' & Hu & Hk)]%IH.
  - unfold add_member in Hst.
    apply assign_lookup in Hst as [(-> & Hproto & ->) | Hst]; [|by left].
    right. exists m. split; [by left | done].
  - right. exists m'. split; [by right | done].
Qed.

Lemma directory_of_dom ms (st : gmap string value) :
  dom (foldl add_member st ms)
  = dom st ∪ list_to_set (member_key <$> ms) ∖ {[ "__proto__" ]}.
Proof.
  revert st. induction ms as [|m ms IH]; intros st; cbn.
  - by rewrite (empty_difference_L (A:=string)), union_empty_r_L.
  - rewrite IH. unfold add_member. rewrite dom_assign.
    rewrite <- (assoc_L (∪)). f_equal. symmetry.
    apply (difference_union_distr_l_L (A:=string)).
Qed.

(** X7: when every member of a successful directory response has a profile
    and an id that converts to a key, the directory has an entry for the
    key of every member but [__proto__], and for no other key, and each
    entry is the id, the name and the image of a member with that key. *)
Theorem getAllUsers_directory (api : remote) fields ms :
  api "users.list" (VObj ∅) = Ok (VObj fields) →
  truthy (prop fields "ok") = true →
  prop fields "members" = VArr ms →
  Forall listed_member ms →
  ∃ users,
    run api getAllUsers = Fulfilled (VObj users)
    ∧ dom users = list_to_set (member_key <$> ms) ∖ {[ "__proto__" ]}
    ∧ ∀ k u, users !! k = Some u →
             ∃ m, m ∈ ms ∧ u = user_entry m ∧ ToPropertyKey (field m "id") = Ok k.
Proof.
  intros Hresp Hok Hms Hall. unfold getAllUsers.
  rewrite (run_then _ _ _ _ _ (client_call_ok _ _ _ _ Hresp Hok)).
  destruct (users_of_response_dec fields ms Hok Hms) as [[_ ->] | [Hn _]]; [|done].
  exists (directory_of ms). split; [done|]. split.
  - unfold directory_of. by rewrite directory_of_dom, dom_empty_L, union_empty_l_L.
  - intros k u [Hempty | (m & Hm & Hu & Hk & _)]%directory_of_lookup; [done|].
    exists m. split; [done|]. split; [done|].
    rewrite Forall_forall in Hall. destruct (Hall m Hm) as [_ Hconv].
    unfold ToPropertyKey, member_key in *.
    by destruct (ToString_dec (field m "id")) as [[_ ->] | [Hn _]]; [rewrite Hk|].
Qed.

Lemma getAllUsers_directory_witness :
  ∃ users,
    run (answering "users.list" crafted_members) getAllUsers = Fulfilled (VObj users)
    ∧ dom users
      = list_to_set
          (member_key <$>
             [VObj {[ "id" := VStr "U1"; "name" := VStr "alice";
                      "profile" := VObj {[ "image_72" := VStr "url" ]} ]}])
        ∖ {[ "__proto__" ]}.
Proof.
  destruct (getAllUsers_directory (answering "users.list" crafted_members)
              {[ "ok" := VBool true;
                 "members" :=
                   VArr [VObj {[ "id" := VStr "U1"; "name" := VStr "alice";
                                 "profile" := VObj {[ "image_72" := VStr "url" ]} ]}] ]}
              [VObj {[ "id" := VStr "U1"; "name" := VStr "alice";
                       "profile" := VObj {[ "image_72" := VStr "url" ]} ]}])
    as (users & Hrun & Hdom & _).
  - reflexivity.
  - vm_compute; reflexivity.
  - vm_compute; reflexivity.
  - repeat constructor; try (vm_compute; reflexivity). by eexists.
  - exists users. split; [exact Hrun | exact Hdom].
Defined.

(** A member whose id is the text [__proto__] is read without a throw and
    gets no entry. *)
Example getAllUsers_proto_member :
  run (answering "users.list"
         (VObj {[ "ok" := VBool true;
                  "members" :=
                    VArr [VObj {[ "id" := VStr "__proto__"; "name" := VStr "alice";
                                  "profile" := VObj {[ "image_72" := VStr "url" ]} ]}] ]}))
    getAllUsers
  = Fulfilled (VObj ∅).
Proof. vm_compute. reflexivity. Qed.

(** X8: a successful directory response is normalised as a whole or not at
    all: one member without a profile, or a [members] that is no array,
    rejects the promise with a [TypeError] and no user is listed. *)
Theorem getAllUsers_all_or_nothing (api : remote) fields :
  api "users.list" (VObj ∅) = Ok (VObj fields) →
  truthy (prop fields "ok") = true →
  (∀ ms, prop fields "members" = VArr ms → ¬ Forall readable_member ms →
         run api getAllUsers = Rejected TypeError)
  ∧ ((∀ ms, prop fields "members" ≠ VArr ms) →
     run api getAllUsers = Rejected TypeError).
Proof.
  intros Hresp Hok. unfold getAllUsers.
  rewrite (run_then _ _ _ _ _ (client_call_ok _ _ _ _ Hresp Hok)). split.
  - intros ms Hms Hall.
    destruct (users_of_response_dec fields ms Hok Hms) as [[Hy _] | [_ ->]]; [|done].
    destruct Hall. eapply Forall_impl; [exact Hy|]. by intros m [Hm _].
  - intros Hms. unfold users_of_response.
    rewrite !get_field_VObj, !bind_Ok, Hok.
    destruct (prop fields "members") as [| | | | |ms|]; try reflexivity.
    by destruct (Hms ms).
Qed.

Lemma getAllUsers_all_or_nothing_witness :
  let fields : gmap string value :=
    {[ "ok" := VBool true;
       "members" :=
         VArr [VObj {[ "id" := VStr "U1"; "name" := VStr "alice";
                       "profile" := VObj {[ "image_72" := VStr "url" ]} ]};
               VObj {[ "id" := VStr "U2"; "name" := VStr "bob" ]}] ]} in
  run (answering "users.list" (VObj fields)) getAllUsers = Rejected TypeError.
Proof.
  intros fields.
  destruct (getAllUsers_all_or_nothing (answering "users.list" (VObj fields)) fields)
    as (Hrejected & _); [reflexivity | vm_compute; reflexivity |].
  eapply Hrejected; [vm_compute; reflexivity|].
  intros Hall. inversion Hall as [|? ? _ Hrest]; subst.
  inversion Hrest as [|? ? [_ Hprofile] _]; subst. vm_compute in Hprofile. discriminate.
Defined.

(** ** The bot lookup *)

(** X9: whatever the remote side answers, a fulfilled bot lookup is a
    mapping with at most one entry, and an entry is flagged as a bot and
    lies under its own id. *)
Theorem getBotInfo_at_most_one (api : remote) botId v :
  run api (getBotInfo botId) = Fulfilled v →
  ∃ users,
    v = VObj users
    ∧ size users ≤ 1
    ∧ ∀ k u, users !! k = Some u →
             get_field u "isBot" = Ok (VBool true)
             ∧ ∃ id, get_field u "id" = Ok id ∧ ToPropertyKey id = Ok k.
Proof.
  unfold getBotInfo, then_, apiCall. cbn.
  destruct (client_call api "bots.info" _) as [response|]; [|discriminate]. cbn.
  destruct (bot_of_response response) as [v'|] eqn:Hbot; [|discriminate].
  intros [= <-]. unfold bot_of_response in Hbot.
  destruct (get_field response "bot") as [bot|]; [|discriminate].
  destruct (get_field response "ok") as [ok|]; [|discriminate].
  rewrite !bind_Ok in Hbot. destruct (truthy ok).
  - destruct (get_field bot "id") as [id|]; [|discriminate].
    destruct (get_field bot "name") as [name|]; [|discriminate].
    destruct (get_field bot "icons") as [icons|]; [|discriminate].
    rewrite !bind_Ok in Hbot.
    destruct (ToPropertyKey id) as [key|] eqn:Hkey; [|discriminate].
    rewrite !bind_Ok in Hbot.
    destruct (get_field icons "image_72") as [image|]; [|discriminate].
    rewrite !bind_Ok in Hbot. injection Hbot as <-.
    eexists. split; [reflexivity|]. split.
    + unfold assign. destruct (String.eqb key "__proto__");
        [by rewrite map_size_empty; lia | by rewrite insert_empty, map_size_singleton].
    + intros k u [(-> & _ & ->) | Hempty]%assign_lookup; [|done].
      split; [reflexivity|]. exists id. split; [reflexivity | done].
  - rewrite bind_Ok in Hbot. injection Hbot as <-.
    exists ∅. split; [reflexivity|]. split; [by rewrite map_size_empty; lia|].
    intros k u. by rewrite lookup_empty.
Qed.

Lemma getBotInfo_at_most_one_witness :
  let response :=
    VObj {[ "ok" := VBool true;
            "bot" := VObj {[ "id" := VStr "B1"; "name" := VStr "deploy";
                             "icons" := VObj {[ "image_72" := VStr "url" ]} ]} ]} in
  ∃ users,
    VObj {[ "B1" := VObj {[ "id" := VStr "B1"; "name" := VStr "deploy";
                            "imageUrl" := VStr "url"; "isBot" := VBool true ]} ]}
    = VObj users
    ∧ size users ≤ 1.
Proof.
  intros response.
  destruct (getBotInfo_at_most_one (answering "bots.info" response) "B1"
              (VObj {[ "B1" := VObj {[ "id" := VStr "B1"; "name" := VStr "deploy";
                                       "imageUrl" := VStr "url"; "isBot" := VBool true ]} ]}))
    as (users & Hv & Hsize & _); [vm_compute; reflexivity|].
  exists users. split; [exact Hv | exact Hsize].
Defined.

(** ** Strings *)

Lemma app_cons a s t : String a s +:+ t = String a (s +:+ t).
Proof. reflexivity. Qed.

Lemma app_nil_l s : "" +:+ s = s.
Proof. reflexivity. Qed.

Lemma app_nil_r s : s +:+ "" = s.
Proof. induction s as [|a s IH]; [reflexivity|]. by rewrite app_cons, IH. Qed.

Lemma app_assoc s t u : (s +:+ t) +:+ u = s +:+ (t +:+ u).
Proof. induction s as [|a s IH]; [reflexivity|]. by rewrite !app_cons, IH. Qed.

Lemma length_app s t : String.length (s +:+ t) = String.length s + String.length t.
Proof. induction s as [|a s IH]; [reflexivity|]. rewrite app_cons. cbn. by rewrite IH. Qed.

Lemma substring_app t rest : String.substring 0 (String.length t) (t +:+ rest) = t.
Proof.
  induction t as [|a t IH]; [by destruct rest|]. rewrite app_cons. cbn. by rewrite IH.
Qed.

Lemma consumed_app t rest : consumed (t +:+ rest) rest = t.
Proof.
  unfold consumed. rewrite length_app.
  replace (String.length t + String.length rest - String.length rest) with (String.length t) by lia.
  apply substring_app.
Qed.

(** ** The equations of the matcher *)

Lemma star_loop_S body gs fuel s c k :
  star_loop body gs (S fuel) s c k
  = match body s (clear gs c)
            (λ s' c',
               if String.length s' <? String.length s
               then star_loop body gs fuel s' c' k
               else None)
    with
    | Some x => Some x
    | None => k s c
    end.
Proof. reflexivity. Qed.

Lemma matcher_Chr_cons p a s c k :
  matcher (Chr p) (String a s) c k = if p a then k s c else None.
Proof. reflexivity. Qed.

Lemma matcher_Chr_nil p c k : matcher (Chr p) "" c k = None.
Proof. reflexivity. Qed.

Lemma matcher_Cat r1 r2 s c k :
  matcher (Cat r1 r2) s c k = matcher r1 s c (λ s' c', matcher r2 s' c' k).
Proof. reflexivity. Qed.

Lemma matcher_Star r s c k :
  matcher (Star r) s c k
  = star_loop (matcher r) (groups_of r) (S (String.length s)) s c k.
Proof. reflexivity. Qed.

Lemma matcher_Grp i r s c k :
  matcher (Grp i r) s c k = matcher r s c (λ s' c', k s' (<[i := consumed s s']> c')).
Proof. reflexivity. Qed.

Lemma matcher_lit_cons a t r b s c k :
  matcher (lit (String a t) r) (String b s) c k
  = if Ascii.eqb a b then matcher (lit t r) s c k else None.
Proof. reflexivity. Qed.

Lemma matcher_lit_nil r s c k : matcher (lit "" r) s c k = matcher r s c k.
Proof. reflexivity. Qed.

Lemma shorter_app t rest a :
  (String.length rest <? String.length (String a (t +:+ rest))) = true.
Proof. apply Nat.ltb_lt. cbn. rewrite length_app. lia. Qed.

Lemma shorter_cons s a : (String.length s <? String.length (String a s)) = true.
Proof. apply (shorter_app "" s a). Qed.

(** ** The matcher never runs out of fuel *)

(** The matcher calls its continuation on suffixes of the text only. *)
Lemma matcher_cont_ext r s c k1 k2 :
  (∀ s' c', String.length s' ≤ String.length s → k1 s' c' = k2 s' c') →
  matcher r s c k1 = matcher r s c k2.
Proof.
  revert s c k1 k2. induction r as [p|r1 IH1 r2 IH2|r IH|i r IH]; intros s c k1 k2 Hk.
  - destruct s as [|a s]; [reflexivity|]. rewrite !matcher_Chr_cons.
    destruct (p a); [|reflexivity]. apply Hk. cbn. lia.
  - rewrite !matcher_Cat. apply IH1. intros s' c' Hs'.
    apply IH2. intros s'' c'' Hs''. apply Hk. lia.
  - rewrite !matcher_Star. generalize (S (String.length s)) as fuel.
    intros fuel. revert s c Hk.
    induction fuel as [|fuel IHfuel]; intros s c Hk; [reflexivity|].
    rewrite !star_loop_S. rewrite (Hk s c) by lia.
    erewrite IH; [reflexivity|]. intros s' c' Hs'. cbn beta.
    destruct (Nat.ltb_spec (String.length s') (String.length s)); [|reflexivity].
    apply IHfuel. intros s'' c'' Hs''. apply Hk. lia.
  - rewrite !matcher_Grp. apply IH. intros s' c' Hs'. by apply Hk.
Qed.

(** Any fuel above the length of the text gives the same iteration. *)
Lemma star_loop_fuel r n m s c k :
  String.length s < n → String.length s < m →
  star_loop (matcher r) (groups_of r) n s c k
  = star_loop (matcher r) (groups_of r) m s c k.
Proof.
  revert m s c. induction n as [|n IH]; intros m s c Hn Hm; [lia|].
  destruct m as [|m]; [lia|]. rewrite !star_loop_S.
  erewrite matcher_cont_ext; [reflexivity|]. intros s' c' Hs'. cbn beta.
  destruct (Nat.ltb_spec (String.length s') (String.length s)); [|reflexivity].
  apply IH; lia.
Qed.

(** ** The matcher on a run of a class *)

Section class_run.
Context (p : ascii → bool).

Lemma star_class t rest c k x fuel :
  all_chars p t = true →
  stops p rest →
  String.length (t +:+ rest) < fuel →
  k rest c = Some x →
  star_loop (matcher (Chr p)) [] fuel (t +:+ rest) c k = Some x.
Proof.
  revert fuel. induction t as [|a t IH]; intros fuel Hall Hstop Hfuel Hk.
  - rewrite app_nil_l in *. destruct fuel as [|fuel]; [lia|].
    rewrite star_loop_S. destruct rest as [|b rest]; [exact Hk|].
    rewrite matcher_Chr_cons. cbn in Hstop. by rewrite Hstop.
  - rewrite app_cons in *. cbn in Hall. apply andb_prop in Hall as [Ha Hall].
    destruct fuel as [|fuel]; [lia|].
    rewrite star_loop_S, matcher_Chr_cons, Ha.
    rewrite shorter_cons.
    rewrite IH; [done..| |done]. cbn in Hfuel. lia.
Qed.

Lemma plus_class t rest c k x :
  t ≠ "" →
  all_chars p t = true →
  stops p rest →
  k rest c = Some x →
  matcher (Plus (Chr p)) (t +:+ rest) c k = Some x.
Proof.
  intros Hne Hall Hstop Hk. destruct t as [|a t]; [done|].
  rewrite app_cons. cbn in Hall. apply andb_prop in Hall as [Ha Hall].
  unfold Plus. rewrite matcher_Cat, matcher_Chr_cons, Ha, matcher_Star.
  apply star_class; [done..|lia|done].
Qed.
End class_run.

(** ** The matcher on an encoded multi-party name *)

Lemma digit_not_dash d : is_digit d = true → Ascii.eqb "-" d = false.
Proof. destruct d as [[] [] [] [] [] [] [] []]; (discriminate || reflexivity). Qed.

Lemma digits_head n : digits n → ∃ d n', n = String d n' ∧ Ascii.eqb "-" d = false.
Proof.
  intros [Hne Hall]. destruct n as [|d n']; [done|]. exists d, n'. split; [done|].
  cbn in Hall. apply andb_prop in Hall as [Hd _]. by apply digit_not_dash.
Qed.

Lemma caps_after_other c rest i : i ≠ 3 → caps_after c rest !! i = c !! i.
Proof.
  intros Hi. revert c. induction rest as [|t ts IH]; intros c; [reflexivity|].
  cbn. rewrite IH. rewrite lookup_insert_ne by done. by rewrite lookup_delete_ne.
Qed.

(** The text after the members starts with a dash. *)
Lemma further_text_stops rest tail :
  stops not_dash (further_text rest +:+ String "-" tail).
Proof. destruct rest; reflexivity. Qed.

Lemma star_members rest tail d c k x fuel :
  Forall member rest →
  Ascii.eqb "-" d = false →
  String.length (further_text rest +:+ String "-" (String d tail)) < fuel →
  k (String "-" (String d tail)) (caps_after c rest) = Some x →
  star_loop (matcher member_group) [3] fuel
    (further_text rest +:+ String "-" (String d tail)) c k = Some x.
Proof.
  intros Hall Hd. revert c fuel.
  induction Hall as [|t ts [Hne Ht] _ IH]; intros c fuel Hfuel Hk.
  - cbn [further_text] in *. rewrite app_nil_l in *.
    destruct fuel as [|fuel]; [lia|]. rewrite star_loop_S.
    unfold member_group at 1. rewrite matcher_Grp, !matcher_lit_cons, Hd.
    exact Hk.
  - cbn [further_text caps_after] in *.
    rewrite !app_cons, app_nil_l, app_assoc in *.
    destruct fuel as [|fuel]; [lia|]. rewrite star_loop_S.
    unfold member_group at 1.
    rewrite matcher_Grp, !matcher_lit_cons, matcher_lit_nil. cbn [Ascii.eqb Bool.eqb].
    set (text := further_text ts +:+ String "-" (String d tail)) in *.
    rewrite (plus_class not_dash t text _ _ x Hne Ht).
    + reflexivity.
    + apply further_text_stops.
    + cbn beta.
      replace (consumed (String "-" (String "-" (t +:+ text))) text) with ("--" +:+ t).
      2:{ symmetry. apply (consumed_app ("--" +:+ t) text). }
      replace (String.length text <? String.length (String "-" (String "-" (t +:+ text))))
        with true.
      2:{ symmetry. apply Nat.ltb_lt. cbn. rewrite length_app. lia. }
      apply IH; [|exact Hk]. cbn in Hfuel. rewrite length_app in Hfuel. lia.
Qed.

Lemma concat_members first rest :
  String.concat "--" (first :: rest) = first +:+ further_text rest.
Proof.
  revert first. induction rest as [|t ts IH]; intros first.
  - cbn. by rewrite app_nil_r.
  - change (String.concat "--" (first :: t :: ts))
      with (first +:+ "--" +:+ String.concat "--" (t :: ts)).
    by rewrite IH.
Qed.

(** A match at the head of a text that starts with an encoded name: the
    digits are read as far as they go. *)
Lemma match_here_prefix first rest n post :
  member first → Forall member rest → digits n → stops is_digit post →
  match_here mpdm_pattern (encoded (first :: rest) n +:+ post)
  = Some (post, member_captures first rest).
Proof.
  intros [Hne Hfirst] Hrest Hn Hpost. unfold member_captures.
  destruct (digits_head n Hn) as (d & n' & -> & Hd). destruct Hn as [_ Hn].
  unfold encoded, match_here, mpdm_pattern. rewrite concat_members, !app_assoc.
  rewrite !app_cons, !app_nil_l, !matcher_lit_cons, matcher_lit_nil.
  rewrite !Ascii.eqb_refl.
  rewrite matcher_Cat, matcher_Grp.
  eapply plus_class; [done | done | apply further_text_stops |].
  rewrite consumed_app, matcher_Cat, matcher_Grp, matcher_Star.
  change (groups_of (Grp 3 (lit "--" (Plus (Chr not_dash))))) with [3].
  apply (star_members rest (n' +:+ post) d); [done | done | apply Nat.lt_succ_diag_r |].
  match goal with
  | |- context [consumed ?s ?s'] =>
      replace (consumed s s') with (further_text rest)
        by (symmetry; apply (consumed_app (further_text rest)))
  end.
  rewrite matcher_lit_cons, matcher_lit_nil, Ascii.eqb_refl.
  by apply (plus_class is_digit (String d n') post).
Qed.

Lemma match_here_encoded first rest n :
  member first → Forall member rest → digits n →
  match_here mpdm_pattern (encoded (first :: rest) n)
  = Some ("", member_captures first rest).
Proof.
  intros Hfirst Hrest Hn.
  rewrite <- (app_nil_r (encoded (first :: rest) n)).
  by apply match_here_prefix.
Qed.

Lemma search_here r s s' c :
  match_here r s = Some (s', c) → search r s = Some (consumed s s', c).
Proof. intros H. destruct s; cbn [search]; by rewrite H. Qed.

Lemma str_match_members raw whole first rest :
  search mpdm_pattern raw = Some (whole, member_captures first rest) →
  ∃ third,
    str_match mpdm_pattern 3 raw
    = Some [VStr whole; VStr first; VStr (further_text rest); third].
Proof.
  intros Hsearch. unfold str_match. rewrite Hsearch.
  eexists. cbn [seq fmap list_fmap]. do 2 f_equal. unfold member_captures.
  f_equal; [|f_equal].
  - rewrite lookup_insert_ne by done. rewrite caps_after_other by done.
    by rewrite lookup_insert_eq.
  - by rewrite lookup_insert_eq.
Qed.

(** ** Splitting the further members *)

Lemma prefix_cons a s b t :
  String.prefix (String a s) (String b t)
  = if ascii_dec a b then String.prefix s t else false.
Proof. reflexivity. Qed.

Lemma prefix_nil t : String.prefix "" t = true.
Proof. by destruct t. Qed.

Lemma not_dash_prefix a s : not_dash a = true → String.prefix "--" (String a s) = false.
Proof.
  unfold not_dash. intros Ha. rewrite prefix_cons.
  destruct (ascii_dec "-" a) as [<-|]; [|reflexivity].
  by rewrite Ascii.eqb_refl in Ha.
Qed.

Lemma split_go_token t text piece pieces :
  all_chars not_dash t = true →
  split_go "--" 0 text = piece :: pieces →
  split_go "--" 0 (t +:+ text) = (t +:+ piece) :: pieces.
Proof.
  intros Ht Htext. induction t as [|a t IH]; [exact Htext|].
  cbn in Ht. apply andb_prop in Ht as [Ha Ht]. rewrite !app_cons.
  cbn [split_go]. rewrite (not_dash_prefix a _ Ha). by rewrite (IH Ht).
Qed.

Lemma split_further rest :
  Forall member rest → split "--" (further_text rest) = "" :: rest.
Proof.
  unfold split. induction 1 as [|t ts [_ Ht] _ IH]; [reflexivity|].
  cbn [further_text]. rewrite !app_cons, app_nil_l.
  cbn [split_go]. rewrite !prefix_cons, prefix_nil.
  destruct (ascii_dec "-" "-") as [_|]; [|done].
  cbn [String.length Nat.sub split_go].
  rewrite (split_go_token t _ "" ts Ht IH). by rewrite app_nil_r.
Qed.

Lemma filter_members rest :
  Forall member rest →
  filter (λ element, truthy (VStr element)) ("" :: rest) = rest.
Proof.
  intros Hrest. rewrite filter_cons_False by (cbn; tauto).
  induction Hrest as [|t ts [Hne _] _ IH]; [reflexivity|].
  rewrite filter_cons_True; [by rewrite IH|].
  cbn. destruct (String.eqb_spec t ""); [done|exact I].
Qed.

Lemma mapM_members (l : list string) :
  mapM (λ element, shown ← ToString element; Ok ("@" +:+ shown)) (VStr <$> l)
  = Ok ((λ t, "@" +:+ t) <$> l).
Proof. induction l as [|t l IH]; [reflexivity|]. cbn. cbn in IH. by rewrite IH. Qed.

(** The name decoded from a match that read the members. *)
Lemma group_name_members is_mpim raw whole first rest :
  truthy is_mpim = true →
  Forall member rest →
  search mpdm_pattern raw = Some (whole, member_captures first rest) →
  group_name is_mpim (VStr raw)
  = Ok (VStr (String.concat ", " ((λ t, "@" +:+ t) <$> first :: rest))).
Proof.
  intros Hmpim Hrest Hsearch. unfold group_name. rewrite Hmpim.
  destruct (str_match_members raw whole first rest Hsearch) as (third & ->).
  cbn [lookup list_lookup default from_option id]. rewrite (split_further rest Hrest).
  rewrite (filter_members rest Hrest).
  change (VStr first :: (VStr <$> rest)) with (VStr <$> first :: rest).
  by rewrite mapM_members.
Qed.

Lemma group_name_encoded is_mpim first rest n :
  truthy is_mpim = true →
  member first → Forall member rest → digits n →
  group_name is_mpim (VStr (encoded (first :: rest) n))
  = Ok (VStr (String.concat ", " ((λ t, "@" +:+ t) <$> first :: rest))).
Proof.
  intros Hmpim Hfirst Hrest Hn.
  apply (group_name_members _ _ (consumed (encoded (first :: rest) n) "")); [done..|].
  apply search_here. by apply match_here_encoded.
Qed.

(** ** What the pattern matches *)

Lemma star_loop_sound r :
  (∀ s c k x,
     matcher r s c k = Some x →
     ∃ w s' c', s = w +:+ s' ∧ lang r w ∧ k s' c' = Some x) →
  ∀ fuel s c k x,
    star_loop (matcher r) (groups_of r) fuel s c k = Some x →
    ∃ w s' c', s = w +:+ s' ∧ lang (Star r) w ∧ k s' c' = Some x.
Proof.
  intros Hr. induction fuel as [|fuel IH]; intros s c k x; [discriminate|].
  rewrite star_loop_S.
  destruct (matcher r s _ _) as [y|] eqn:Hbody.
  - intros [= ->]. apply Hr in Hbody as (w1 & s1 & c1 & -> & Hw1 & Hk).
    destruct (_ <? _); [|discriminate].
    apply IH in Hk as (w2 & s2 & c2 & -> & Hw2 & Hk).
    exists (w1 +:+ w2), s2, c2. rewrite app_assoc.
    split; [done|]. split; [by constructor | done].
  - intros Hk. exists "", s, c. split; [done|]. split; [constructor | done].
Qed.

(** Whatever the matcher accepts is a text of the pattern followed by a
    text the continuation accepts. *)
Lemma matcher_sound r s c k x :
  matcher r s c k = Some x →
  ∃ w s' c', s = w +:+ s' ∧ lang r w ∧ k s' c' = Some x.
Proof.
  revert s c k x. induction r as [p|r1 IH1 r2 IH2|r IH|i r IH]; intros s c k x.
  - destruct s as [|a s]; [discriminate|]. rewrite matcher_Chr_cons.
    destruct (p a) eqn:Hp; [|discriminate]. intros Hk.
    exists (String a ""), s, c. split; [done|]. split; [by constructor | done].
  - rewrite matcher_Cat. intros H.
    apply IH1 in H as (w1 & s1 & c1 & -> & Hw1 & H).
    apply IH2 in H as (w2 & s2 & c2 & -> & Hw2 & H).
    exists (w1 +:+ w2), s2, c2. rewrite app_assoc.
    split; [done|]. split; [by constructor | done].
  - rewrite matcher_Star. by apply star_loop_sound.
  - rewrite matcher_Grp. intros H. apply IH in H as (w & s' & c' & -> & Hw & Hk).
    eexists w, s', _. split; [done|]. split; [by constructor | exact Hk].
Qed.

Lemma search_sound r s whole c :
  search r s = Some (whole, c) → ∃ pre w post, s = pre +:+ w +:+ post ∧ lang r w.
Proof.
  revert whole c. induction s as [|a s IH]; intros whole c; cbn [search];
    destruct (match_here r _) as [[s' c']|] eqn:Hhere.
  - apply matcher_sound in Hhere as (w & s'' & c'' & Hs & Hw & _).
    intros _. by exists "", w, s''.
  - discriminate.
  - apply matcher_sound in Hhere as (w & s'' & c'' & Hs & Hw & _).
    intros _. by exists "", w, s''.
  - intros (pre & w & post & -> & Hw)%IH. by exists (String a pre), w, post.
Qed.

(** *** The texts of the source pattern *)

Lemma lang_lit t r w : lang (lit t r) w → ∃ w', w = t +:+ w' ∧ lang r w'.
Proof.
  revert w. induction t as [|a t IH]; intros w; cbn [lit]; [by exists w|].
  inversion 1 as [|? ? w1 w2 H1 H2| | |]; subst.
  inversion H1 as [? b Hb| | | |]; subst. apply Ascii.eqb_eq in Hb as <-.
  apply IH in H2 as (w' & -> & Hw'). by exists w'.
Qed.

Lemma lang_star_class p w : lang (Star (Chr p)) w → all_chars p w = true.
Proof.
  intros H. remember (Star (Chr p)) as r eqn:Hr.
  induction H as [| | |r' w1 w2 H1 _ H2 IH|]; inversion Hr; subst; [reflexivity|].
  inversion H1; subst. rewrite app_cons, app_nil_l. cbn. rewrite IH by done.
  by apply andb_true_intro.
Qed.

Lemma lang_plus_class p w : lang (Plus (Chr p)) w → w ≠ "" ∧ all_chars p w = true.
Proof.
  unfold Plus. inversion 1 as [|? ? w1 w2 H1 H2| | |]; subst.
  inversion H1; subst. apply lang_star_class in H2. rewrite app_cons, app_nil_l.
  split; [done|]. cbn. by apply andb_true_intro.
Qed.

Lemma lang_members w :
  lang (Star member_group) w → ∃ rest, Forall member rest ∧ w = further_text rest.
Proof.
  intros H. remember (Star member_group) as r eqn:Hr.
  induction H as [| | |r' w1 w2 H1 _ H2 IH|]; inversion Hr; subst.
  - by exists [].
  - destruct (IH eq_refl) as (rest & Hrest & ->).
    inversion H1 as [| | | |? ? ? Hg]; subst.
    apply (lang_lit "--") in Hg as (t & -> & Ht%lang_plus_class).
    exists (t :: rest). split; [by constructor|].
    cbn [further_text]. by rewrite !app_assoc.
Qed.

Lemma lang_mpdm w :
  lang mpdm_pattern w →
  ∃ members n, members ≠ [] ∧ Forall member members ∧ digits n ∧ w = encoded members n.
Proof.
  unfold mpdm_pattern. intros (w1 & -> & H)%(lang_lit "mpdm-").
  inversion H as [|? ? first w2 Hfirst H2| | |]; subst.
  inversion Hfirst as [| | | |? ? ? Hfirst']; subst.
  apply lang_plus_class in Hfirst'.
  inversion H2 as [|? ? further w3 Hfurther H3| | |]; subst.
  inversion Hfurther as [| | | |? ? ? Hfurther']; subst.
  apply lang_members in Hfurther' as (rest & Hrest & ->).
  apply (lang_lit "-") in H3 as (n & -> & Hn%lang_plus_class).
  exists (first :: rest), n. split; [done|]. split; [by constructor|]. split; [done|].
  unfold encoded. by rewrite concat_members, !app_assoc.
Qed.

(** A name the pattern matches contains an encoded name. *)
Lemma str_match_occurs raw matched :
  str_match mpdm_pattern 3 raw = Some matched → occurs raw.
Proof.
  unfold str_match. destruct (search mpdm_pattern raw) as [[whole c]|] eqn:Hsearch;
    [|discriminate].
  intros _. apply search_sound in Hsearch as (pre & w & post & -> & Hw).
  apply lang_mpdm in Hw as (members & n & Hne & Hmembers & Hn & ->).
  by exists pre, members, n, post.
Qed.

(** *** Every occurrence is found *)

Lemma all_chars_app p s t :
  all_chars p (s +:+ t) = all_chars p s && all_chars p t.
Proof.
  induction s as [|a s IH]; [reflexivity|]. rewrite app_cons. cbn. rewrite IH.
  by rewrite andb_assoc.
Qed.

(** The longest run of a class at the head of a text. *)
Lemma class_run p s :
  ∃ t rest, s = t +:+ rest ∧ all_chars p t = true ∧ stops p rest.
Proof.
  induction s as [|a s (t & rest & -> & Ht & Hrest)]; [by exists "", ""|].
  destruct (p a) eqn:Hp.
  - exists (String a t), rest. split; [done|]. split; [|done]. cbn. by rewrite Hp.
  - by exists "", (String a (t +:+ rest)).
Qed.

Lemma match_here_occurrence first rest n post :
  member first → Forall member rest → digits n →
  ∃ post', match_here mpdm_pattern (encoded (first :: rest) n +:+ post)
           = Some (post', member_captures first rest).
Proof.
  intros Hfirst Hrest [Hn Hdigits].
  destruct (class_run is_digit post) as (more & post' & -> & Hmore & Hpost').
  replace (encoded (first :: rest) n +:+ more +:+ post')
    with (encoded (first :: rest) (n +:+ more) +:+ post')
    by (unfold encoded; by rewrite !app_assoc).
  exists post'. apply match_here_prefix; [done..| |done].
  split; [by destruct n|]. rewrite all_chars_app, Hdigits, Hmore. reflexivity.
Qed.

Lemma search_suffix r pre s x :
  match_here r s = Some x → ∃ y, search r (pre +:+ s) = Some y.
Proof.
  intros Hhere. induction pre as [|a pre [y IH]].
  - rewrite app_nil_l. destruct x as [s' c]. exists (consumed s s', c).
    by apply search_here.
  - rewrite app_cons. cbn [search].
    destruct (match_here r (String a (pre +:+ s))) as [[s' c]|]; eauto.
Qed.

(** The search stops at the first position with a match. *)
Lemma search_leftmost r pre s s' c :
  match_here r s = Some (s', c) →
  (∀ p1 p2, pre = p1 +:+ p2 → p2 ≠ "" → match_here r (p2 +:+ s) = None) →
  search r (pre +:+ s) = Some (consumed s s', c).
Proof.
  intros Hhere. induction pre as [|a pre IH]; intros Hearlier.
  - rewrite app_nil_l. by apply search_here.
  - rewrite app_cons. cbn [search].
    rewrite <- app_cons, (Hearlier "" (String a pre)) by done.
    apply IH. intros p1 p2 -> Hp2. by apply (Hearlier (String a p1) p2).
Qed.

(** The pattern fails on a name exactly when the name contains no encoded
    name. *)
Lemma str_match_None raw : str_match mpdm_pattern 3 raw = None ↔ ¬ occurs raw.
Proof.
  split.
  - intros Hnone (pre & [|first rest] & n & post & Hne & Hmembers & Hn & ->); [done|].
    inversion Hmembers; subst.
    destruct (match_here_occurrence first rest n post) as [post' Hx]; [done..|].
    destruct (search_suffix mpdm_pattern pre _ _ Hx) as [[whole c] Hy].
    unfold str_match in Hnone. by rewrite Hy in Hnone.
  - intros Hno. destruct (str_match mpdm_pattern 3 raw) as [matched|] eqn:Hm; [|done].
    destruct Hno. by eapply str_match_occurs.
Qed.

(** ** The names of multi-party groups *)

Lemma match_here_members s s' c :
  match_here mpdm_pattern s = Some (s', c) →
  ∃ first rest n,
    member first ∧ Forall member rest ∧ digits n
    ∧ s = encoded (first :: rest) n +:+ s'
    ∧ c = member_captures first rest.
Proof.
  intros Hhere. pose proof Hhere as Hsound. unfold match_here in Hsound.
  apply matcher_sound in Hsound as (w & s'' & c'' & -> & Hw & [= -> ->]).
  apply lang_mpdm in Hw as ([|first rest] & n & Hne & Hmembers & Hn & ->); [done|].
  inversion Hmembers; subst.
  destruct (match_here_occurrence first rest n s') as [post' Hfound]; [done..|].
  rewrite Hhere in Hfound. injection Hfound as _ ->.
  by exists first, rest, n.
Qed.

(** The match that the search returns starts at the first position with a
    match. *)
Lemma search_first r s whole c :
  search r s = Some (whole, c) →
  ∃ pre s0 s',
    s = pre +:+ s0
    ∧ match_here r s0 = Some (s', c)
    ∧ ∀ p1 p2, pre = p1 +:+ p2 → p2 ≠ "" → match_here r (p2 +:+ s0) = None.
Proof.
  revert whole c. induction s as [|a s IH]; intros whole c; cbn [search];
    destruct (match_here r _) as [[s' c']|] eqn:Hhere.
  - intros [= _ <-]. exists "", "", s'. split; [done|]. split; [done|].
    intros [|? ?] [|? ?]; done.
  - discriminate.
  - intros [= _ <-]. exists "", (String a s), s'. split; [done|]. split; [done|].
    intros [|? ?] [|? ?]; done.
  - intros (pre & s0 & s' & -> & Hs0 & Hearlier)%IH.
    exists (String a pre), s0, s'. split; [done|]. split; [done|].
    intros [|b p1] p2 Hpre Hp2.
    + rewrite app_nil_l in Hpre. subst p2. by rewrite app_cons.
    + rewrite app_cons in Hpre. injection Hpre as _ ->.
      by apply (Hearlier p1 p2).
Qed.

Lemma search_members raw whole c :
  search mpdm_pattern raw = Some (whole, c) →
  ∃ pre first rest n post,
    member first ∧ Forall member rest ∧ digits n
    ∧ raw = pre +:+ encoded (first :: rest) n +:+ post
    ∧ leftmost pre (encoded (first :: rest) n +:+ post)
    ∧ c = member_captures first rest.
Proof.
  intros (pre & s0 & s' & -> & Hhere & Hearlier)%search_first.
  apply match_here_members in Hhere as (first & rest & n & Hfirst & Hrest & Hn & -> & ->).
  exists pre, first, rest, n, s'. repeat (split; [done|]). split; [|done].
  intros p1 p2 [|first' rest'] n' post' Hpre Hp2 Hne Hmembers Hn' Heq; [done|].
  inversion Hmembers; subst.
  destruct (match_here_occurrence first' rest' n' post') as [post'' Hfound]; [done..|].
  rewrite <- Heq, (Hearlier p1 p2 eq_refl Hp2) in Hfound. discriminate.
Qed.

(** The two outcomes of naming a multi-party group whose name is a text. *)
Lemma group_name_cases is_mpim raw :
  truthy is_mpim = true →
  (¬ occurs raw ∧ group_name is_mpim (VStr raw) = Ok (VStr raw))
  ∨ (∃ pre members n post,
       members ≠ [] ∧ Forall member members ∧ digits n
       ∧ raw = pre +:+ encoded members n +:+ post
       ∧ group_name is_mpim (VStr raw) = Ok (VStr (decoded members))).
Proof.
  intros Hmpim. destruct (search mpdm_pattern raw) as [[whole c]|] eqn:Hsearch.
  - right.
    destruct (search_members raw whole c Hsearch)
      as (pre & first & rest & n & post & Hfirst & Hrest & Hn & Hraw & _ & ->).
    exists pre, (first :: rest), n, post.
    split; [done|]. split; [by constructor|]. split; [done|]. split; [done|].
    by apply (group_name_members is_mpim raw whole first rest).
  - left. assert (str_match mpdm_pattern 3 raw = None) as Hnone.
    { unfold str_match. by rewrite Hsearch. }
    split; [by apply str_match_None|].
    unfold group_name. by rewrite Hmpim, Hnone.
Qed.





(** X15: naming a multi-party group whose name is a text never throws: the
    name is kept when it contains no encoded name, and is otherwise the
    decoding of the members of an encoded name it contains. *)
Theorem group_name_total is_mpim raw :
  truthy is_mpim = true →
  (¬ occurs raw ∧ group_name is_mpim (VStr raw) = Ok (VStr raw))
  ∨ (∃ pre members n post,
       members ≠ [] ∧ Forall member members ∧ digits n
       ∧ raw = pre +:+ encoded members n +:+ post
       ∧ group_name is_mpim (VStr raw) = Ok (VStr (decoded members))).
Proof.
  intros Hmpim. destruct (str_match mpdm_pattern 3 raw) as [matched|] eqn:Hmatch.
  - right. unfold str_match in Hmatch.
    destruct (search mpdm_pattern raw) as [[whole c]|] eqn:Hsearch; [|discriminate].
    destruct (search_members raw whole c Hsearch)
      as (pre & first & rest & n & post & Hfirst & Hrest & Hn & Hraw & _ & ->).
    exists pre, (first :: rest), n, post.
    split; [done|]. split; [by constructor|]. split; [done|]. split; [done|].
    by apply (group_name_members is_mpim raw whole first rest).
  - left. split; [by apply str_match_None|].
    unfold group_name. by rewrite Hmpim, Hmatch.
Qed.

Lemma group_name_total_witness :
  (¬ occurs "mpdm-user-name--bob-1"
   ∧ group_name (VBool true) (VStr "mpdm-user-name--bob-1")
     = Ok (VStr "mpdm-user-name--bob-1"))
  ∨ (∃ pre members n post,
       members ≠ [] ∧ Forall member members ∧ digits n
       ∧ "mpdm-user-name--bob-1" = pre +:+ encoded members n +:+ post
       ∧ group_name (VBool true) (VStr "mpdm-user-name--bob-1")
         = Ok (VStr (decoded members))).
Proof. apply (group_name_total (VBool true) "mpdm-user-name--bob-1"). reflexivity. Defined.

Lemma mpdm_has_dash text : all_chars not_dash ("mpdm-" +:+ text) = false.
Proof. reflexivity. Qed.

Lemma occurs_has_dash raw : occurs raw → all_chars not_dash raw = false.
Proof.
  intros (pre & members & n & post & _ & _ & _ & ->). unfold encoded.
  rewrite all_chars_app, !app_assoc, mpdm_has_dash. apply andb_false_r.
Qed.

Lemma decoded_no_dash members :
  Forall member members → all_chars not_dash (decoded members) = true.
Proof.
  unfold decoded. induction 1 as [|t ts [_ Ht] Hts IH]; [reflexivity|].
  destruct ts as [|t' ts].
  - change (String.concat ", " ((λ t, "@" +:+ t) <$> [t])) with ("@" +:+ t).
    by rewrite all_chars_app, Ht.
  - change (String.concat ", " ((λ t, "@" +:+ t) <$> t :: t' :: ts))
      with (("@" +:+ t) +:+ ", " +:+ String.concat ", " ((λ t, "@" +:+ t) <$> t' :: ts)).
    by rewrite !all_chars_app, IH, Ht.
Qed.

(** X16: naming a multi-party group is idempotent: a decoded name holds no
    dash, so naming the result again leaves it as it is. *)
Theorem group_name_idempotent is_mpim raw :
  truthy is_mpim = true →
  ∃ name,
    group_name is_mpim (VStr raw) = Ok (VStr name)
    ∧ group_name is_mpim (VStr name) = Ok (VStr name).
Proof.
  intros Hmpim.
  destruct (group_name_cases is_mpim raw Hmpim)
    as [[_ Hkept] | (pre & members & n & post & _ & Hmembers & _ & _ & Hdecoded)].
  - by exists raw.
  - exists (decoded members). split; [done|].
    destruct (group_name_cases is_mpim (decoded members) Hmpim)
      as [[_ Hkept] | (pre' & members' & n' & post' & Hne & Hm' & Hn' & Hraw & _)]; [done|].
    assert (occurs (decoded members)) as Hocc by (by exists pre', members', n', post').
    apply occurs_has_dash in Hocc. by rewrite decoded_no_dash in Hocc.
Qed.

Lemma group_name_idempotent_witness :
  ∃ name,
    group_name (VBool true) (VStr "mpdm-alice--bob-1") = Ok (VStr name)
    ∧ group_name (VBool true) (VStr name) = Ok (VStr name).
Proof. apply (group_name_idempotent (VBool true) "mpdm-alice--bob-1"). reflexivity. Defined.

(** X17: when a name contains encoded names, the members decoded are those
    of the leftmost one, whatever stands before and after it. *)
Theorem group_name_decodes_leftmost is_mpim pre first rest n post :
  truthy is_mpim = true →
  member first → Forall member rest → digits n →
  (∀ p1 p2 members' n' post',
     pre = p1 +:+ p2 → p2 ≠ "" →
     members' ≠ [] → Forall member members' → digits n' →
     p2 +:+ encoded (first :: rest) n +:+ post ≠ encoded members' n' +:+ post') →
  group_name is_mpim (VStr (pre +:+ encoded (first :: rest) n +:+ post))
  = Ok (VStr (decoded (first :: rest))).
Proof.
  intros Hmpim Hfirst Hrest Hn Hleft.
  destruct (match_here_occurrence first rest n post) as [post' Hhere]; [done..|].
  eapply group_name_members; [done..|].
  apply search_leftmost; [exact Hhere|].
  intros p1 p2 Hpre Hp2.
  destruct (match_here mpdm_pattern (p2 +:+ _)) as [[s' c]|] eqn:Hearly; [|reflexivity].
  apply matcher_sound in Hearly as (w & s'' & c'' & Hw & Hlang & _).
  apply lang_mpdm in Hlang as (members' & n' & Hne & Hmembers & Hn' & ->).
  by destruct (Hleft p1 p2 members' n' s'' Hpre Hp2 Hne Hmembers Hn').
Qed.

Lemma group_name_decodes_leftmost_witness :
  group_name (VBool true) (VStr ("x" +:+ encoded ["alice"; "bob"] "1" +:+ "-mpdm-carol-2"))
  = Ok (VStr (decoded ["alice"; "bob"])).
Proof.
  apply (group_name_decodes_leftmost (VBool true) "x" "alice" ["bob"] "1" "-mpdm-carol-2").
  - reflexivity.
  - split; [discriminate | reflexivity].
  - repeat constructor; discriminate.
  - split; [discriminate | reflexivity].
  - intros p1 p2 members' n' post' Hpre Hp2 _ _ _.
    destruct p1 as [|a p1].
    + rewrite app_nil_l in Hpre. subst p2. discriminate.
    + destruct p1; destruct p2; try discriminate. by destruct Hp2.
Defined.

(** ** The channel aggregator *)

Lemma channels_of_response_failed fields :
  truthy (prop fields "ok") = false → channels_of_response (VObj fields) = Ok VUndefined.
Proof. intros Hok. unfold channels_of_response. by rewrite !get_field_VObj, !bind_Ok, Hok. Qed.

Lemma groups_of_response_failed fields :
  truthy (prop fields "ok") = false → groups_of_response (VObj fields) = Ok VUndefined.
Proof. intros Hok. unfold groups_of_response. by rewrite !get_field_VObj, !bind_Ok, Hok. Qed.

Lemma directs_of_response_failed users fields :
  truthy (prop fields "ok") = false → directs_of_response users (VObj fields) = Ok VUndefined.
Proof. intros Hok. unfold directs_of_response. by rewrite !get_field_VObj, !bind_Ok, Hok. Qed.

Lemma channels_of_response_ok fields :
  truthy (prop fields "ok") = true →
  channels_of_response (VObj fields) = array_map channel_of (prop fields "channels").
Proof. intros Hok. unfold channels_of_response. by rewrite !get_field_VObj, !bind_Ok, Hok. Qed.

Lemma groups_of_response_ok fields :
  truthy (prop fields "ok") = true →
  groups_of_response (VObj fields) = array_map group_of (prop fields "groups").
Proof. intros Hok. unfold groups_of_response. by rewrite !get_field_VObj, !bind_Ok, Hok. Qed.

Lemma directs_of_response_ok users fields :
  truthy (prop fields "ok") = true →
  directs_of_response users (VObj fields) = array_map (direct_of users) (prop fields "ims").
Proof. intros Hok. unfold directs_of_response. by rewrite !get_field_VObj, !bind_Ok, Hok. Qed.

(** The list [getChannels] settles with, from the results of the three
    callbacks. *)
Lemma getChannels_run (api : remote) users r1 r2 r3 v1 v2 v3 :
  client_call api "channels.list" exclude_archived = Fulfilled r1 →
  client_call api "groups.list" exclude_archived = Fulfilled r2 →
  client_call api "im.list" (VObj ∅) = Fulfilled r3 →
  channels_of_response r1 = Ok v1 →
  groups_of_response r2 = Ok v2 →
  directs_of_response users r3 = Ok v3 →
  run api (getChannels users) = Fulfilled (concat_spread [v1; v2; v3]).
Proof.
  intros H1 H2 H3 Hv1 Hv2 Hv3. unfold getChannels.
  fold exclude_archived.
  rewrite run_bind, (run_then _ _ _ _ _ H1), Hv1.
  rewrite run_bind, (run_then _ _ _ _ _ H2), Hv2.
  rewrite run_bind, (run_then _ _ _ _ _ H3), Hv3.
  reflexivity.
Qed.

(** When the three responses report success, the list is the three
    normalised segments in the order channels, groups, directs. *)
Lemma getChannels_all_ok (api : remote) users f1 f2 f3 l1 l2 l3 :
  api "channels.list" exclude_archived = Ok (VObj f1) →
  api "groups.list" exclude_archived = Ok (VObj f2) →
  api "im.list" (VObj ∅) = Ok (VObj f3) →
  truthy (prop f1 "ok") = true →
  truthy (prop f2 "ok") = true →
  truthy (prop f3 "ok") = true →
  array_map channel_of (prop f1 "channels") = Ok (VArr l1) →
  array_map group_of (prop f2 "groups") = Ok (VArr l2) →
  array_map (direct_of users) (prop f3 "ims") = Ok (VArr l3) →
  run api (getChannels users) = Fulfilled (l1 ++ l2 ++ l3)
  ∧ length (l1 ++ l2 ++ l3) = length l1 + length l2 + length l3.
Proof.
  intros H1 H2 H3 Hok1 Hok2 Hok3 Hl1 Hl2 Hl3. split.
  - rewrite (getChannels_run api users _ _ _ (VArr l1) (VArr l2) (VArr l3)
               (client_call_ok _ _ _ _ H1 Hok1) (client_call_ok _ _ _ _ H2 Hok2)
               (client_call_ok _ _ _ _ H3 Hok3)).
    + cbn. by rewrite List.app_nil_r.
    + by rewrite channels_of_response_ok.
    + by rewrite groups_of_response_ok.
    + by rewrite directs_of_response_ok.
  - rewrite !List.length_app. lia.
Qed.

(** A call that the web client rejects rejects the whole list: [Promise.all]
    is rejected as soon as one of its promises is. *)
Lemma getChannels_rejected (api : remote) users :
  (∃ e, client_call api "channels.list" exclude_archived = Rejected e)
  ∨ (∃ e, client_call api "groups.list" exclude_archived = Rejected e)
  ∨ (∃ e, client_call api "im.list" (VObj ∅) = Rejected e) →
  ∃ e, run api (getChannels users) = Rejected e.
Proof.
  intros H. unfold getChannels. fold exclude_archived.
  rewrite run_bind.
  destruct (run api (then_ (apiCall "channels.list" exclude_archived) channels_of_response))
    as [v1|e1] eqn:Hrun1; [|eauto].
  rewrite run_bind.
  destruct (run api (then_ (apiCall "groups.list" exclude_archived) groups_of_response))
    as [v2|e2] eqn:Hrun2; [|eauto].
  rewrite run_bind.
  destruct (run api (then_ (apiCall "im.list" (VObj ∅)) (directs_of_response users)))
    as [v3|e3] eqn:Hrun3; [|eauto].
  destruct H as [[e H] | [[e H] | [e H]]];
    [rewrite (run_then_rejected _ _ _ _ _ H) in Hrun1
    |rewrite (run_then_rejected _ _ _ _ _ H) in Hrun2
    |rewrite (run_then_rejected _ _ _ _ _ H) in Hrun3]; discriminate.
Qed.

(** A segment whose response does not report success: the web client
    rejects its call, and with it the list. *)
Lemma getChannels_groups_failed (api : remote) users f2 :
  api "groups.list" exclude_archived = Ok (VObj f2) →
  truthy (prop f2 "ok") = false →
  ∃ e, run api (getChannels users) = Rejected e.
Proof.
  intros H2 Hok2. apply getChannels_rejected. right. left.
  exists PlatformError. by eapply client_call_failed.
Qed.

(** C1 on the code: with the groups call reporting failure and one
    element in each of the two other segments, the promise of the list is
    rejected with the platform error of the web client: the elements of
    the two other segments are not returned. *)
Theorem getChannels_one_failing :
  run one_failing (getChannels ∅) = Rejected PlatformError.
Proof. vm_compute. reflexivity. Qed.

(** ** Direct messages *)

(** C7, as the code has it: a direct message whose partner is in the
    directory is named [@] and the partner's name there; a partner that is
    missing from the directory and is no name that every object inherits
    gives [@] and the raw id. *)
Theorem direct_of_name users fields partner :
  prop fields "user" = VStr partner →
  (∀ entry name,
     users !! partner = Some entry →
     get_field entry "name" = Ok (VStr name) →
     direct_of users (VObj fields)
     = Ok (VObj {[ "id" := prop fields "id"; "name" := VStr ("@" +:+ name);
                   "type" := VStr "im" ]}))
  ∧ (users !! partner = None →
     inherited_name partner = None →
     direct_of users (VObj fields)
     = Ok (VObj {[ "id" := prop fields "id"; "name" := VStr ("@" +:+ partner);
                   "type" := VStr "im" ]})).
Proof.
  intros Huser. unfold direct_of, direct_name.
  rewrite !get_field_VObj, !bind_Ok, Huser. cbn [ToPropertyKey ToString].
  rewrite bind_Ok. split.
  - intros entry name -> ->. reflexivity.
  - intros -> ->. reflexivity.
Qed.

Lemma direct_of_name_witness :
  let users : gmap string value :=
    {[ "U1" := VObj {[ "id" := VStr "U1"; "name" := VStr "alice"; "imageUrl" := VStr "url" ]} ]} in
  direct_of users (VObj {[ "id" := VStr "D1"; "user" := VStr "U1" ]})
  = Ok (VObj {[ "id" := prop {[ "id" := VStr "D1"; "user" := VStr "U1" ]} "id";
                "name" := VStr ("@" +:+ "alice"); "type" := VStr "im" ]})
  ∧ direct_of users (VObj {[ "id" := VStr "D2"; "user" := VStr "U2" ]})
    = Ok (VObj {[ "id" := prop {[ "id" := VStr "D2"; "user" := VStr "U2" ]} "id";
                  "name" := VStr ("@" +:+ "U2"); "type" := VStr "im" ]}).
Proof.
  intros users. split.
  - destruct (direct_of_name users {[ "id" := VStr "D1"; "user" := VStr "U1" ]} "U1")
      as [Hpresent _]; [vm_compute; reflexivity|].
    apply (Hpresent
             (VObj {[ "id" := VStr "U1"; "name" := VStr "alice"; "imageUrl" := VStr "url" ]})
             "alice"); vm_compute; reflexivity.
  - destruct (direct_of_name users {[ "id" := VStr "D2"; "user" := VStr "U2" ]} "U2")
      as [_ Habsent]; [vm_compute; reflexivity|].
    apply Habsent; vm_compute; reflexivity.
Defined.

(** C7 as stated fails on a partner whose id is a name that every object
    inherits: [constructor] is found in the empty directory, and the
    channel is named by the name of what is found, not by the raw id. *)
Lemma direct_of_inherited :
  let users : gmap string value := ∅ in
  users !! "constructor" = None
  ∧ direct_of users (VObj {[ "id" := VStr "D1"; "user" := VStr "constructor" ]})
    = Ok (VObj {[ "id" := VStr "D1"; "name" := VStr "@Object"; "type" := VStr "im" ]})
  ∧ VStr "@Object" ≠ VStr ("@" +:+ "constructor").
Proof.
  intros users. split; [reflexivity|]. split; [vm_compute; reflexivity | discriminate].
Qed.

(** ** The channel list as a whole *)

Lemma channel_of_dec c :
  (listed_channel c ∧ channel_of c = Ok (value_of (channel_of c)))
  ∨ (¬ listed_channel c ∧ channel_of c = Throw TypeError).
Proof.
  unfold channel_of, listed_channel. destruct (nullish c) eqn:Hnn.
  - right. split; [intros [? _]; discriminate|]. by rewrite (get_field_nullish _ "id" Hnn).
  - rewrite (get_field_field _ "id" Hnn), (get_field_field _ "name" Hnn), !bind_Ok.
    destruct (ToString_dec (field c "name")) as [[Hname ->] | [Hname ->]].
    + left. split; [done | reflexivity].
    + right. split; [tauto | reflexivity].
Qed.

Lemma group_name_dec is_mpim name :
  (((truthy is_mpim = true → ∃ raw, name = VStr raw)
    ∧ (truthy is_mpim = false → convertible name))
   ∧ ∃ shown, group_name is_mpim name = Ok (VStr shown))
  ∨ (¬ ((truthy is_mpim = true → ∃ raw, name = VStr raw)
        ∧ (truthy is_mpim = false → convertible name))
     ∧ group_name is_mpim name = Throw TypeError).
Proof.
  destruct (truthy is_mpim) eqn:Hmpim.
  - destruct name as [| |b|z|raw|l|fields];
      try (right; split; [intros [H _]; by destruct (H eq_refl)
                         | unfold group_name; by rewrite Hmpim]).
    left. split; [split; [eauto | discriminate]|].
    destruct (group_name_cases is_mpim raw Hmpim)
      as [[_ ->] | (? & ? & ? & ? & _ & _ & _ & _ & ->)]; eauto.
  - unfold group_name. rewrite Hmpim.
    destruct (ToString_dec name) as [[Hname ->] | [Hname ->]].
    + left. split; [split; [discriminate | done]|]. rewrite bind_Ok. eauto.
    + right. split; [intros [_ H]; by apply Hname, H | reflexivity].
Qed.

Lemma group_of_dec g :
  (listed_group g ∧ group_of g = Ok (value_of (group_of g)))
  ∨ (¬ listed_group g ∧ group_of g = Throw TypeError).
Proof.
  unfold group_of, listed_group, readable_group. destruct (nullish g) eqn:Hnn.
  - right. split; [intros [[? _] _]; discriminate|].
    by rewrite (get_field_nullish _ "id" Hnn).
  - rewrite (get_field_field _ "id" Hnn), (get_field_field _ "is_mpim" Hnn),
      (get_field_field _ "name" Hnn), !bind_Ok.
    destruct (group_name_dec (field g "is_mpim") (field g "name"))
      as [[[Hmpim Hplain] [shown ->]] | [Hname ->]].
    + left. split; [done | reflexivity].
    + right. split; [tauto | reflexivity].
Qed.

Lemma direct_of_dec users d :
  (listed_direct users d ∧ direct_of users d = Ok (value_of (direct_of users d)))
  ∨ (¬ listed_direct users d ∧ direct_of users d = Throw TypeError).
Proof.
  unfold direct_of, listed_direct, readable_direct, direct_name, partner_of.
  destruct (nullish d) eqn:Hnn.
  - right. split; [intros [[? _] _]; discriminate|].
    by rewrite (get_field_nullish _ "id" Hnn).
  - rewrite (get_field_field _ "id" Hnn), (get_field_field _ "user" Hnn), !bind_Ok.
    unfold ToPropertyKey.
    destruct (ToString_dec (field d "user")) as [[Huser ->] | [Huser ->]];
      [|right; split; [tauto | reflexivity]].
    rewrite bind_Ok.
    destruct (users !! shown (field d "user")) as [entry|] eqn:Hentry.
    + destruct (nullish entry) eqn:Hobj.
      * right. split; [|by rewrite (get_field_nullish _ "name" Hobj)].
        intros [[_ H] _]. by rewrite (H _ entry eq_refl Hentry) in Hobj.
      * rewrite (get_field_field _ "name" Hobj), bind_Ok.
        destruct (ToString_dec (field entry "name")) as [[Hname ->] | [Hname ->]].
        -- left. split; [|reflexivity]. split; [|done]. split; [done|].
           intros key entry' [= <-]. rewrite Hentry. by intros [= <-].
        -- right. split; [tauto | reflexivity].
    + destruct (inherited_name (shown (field d "user"))) as [name|]; cbn [default];
        rewrite bind_Ok.
      * destruct (ToString_dec name) as [[Hname ->] | [Hname ->]].
        -- left. split; [|reflexivity]. split; [|done]. split; [done|].
           intros key entry' [= <-]. by rewrite Hentry.
        -- right. split; [tauto | reflexivity].
      * destruct (ToString_dec (field d "user")) as [[_ ->] | [? _]]; [|done].
        left. split; [|reflexivity]. split; [|done]. split; [done|].
        intros key entry' [= <-]. by rewrite Hentry.
Qed.

Lemma array_map_dec (f : value → res value) (P : value → Prop) l :
  (∀ x, (P x ∧ f x = Ok (value_of (f x))) ∨ (¬ P x ∧ f x = Throw TypeError)) →
  (Forall P l ∧ array_map f (VArr l) = Ok (VArr ((λ x, value_of (f x)) <$> l)))
  ∨ (¬ Forall P l ∧ array_map f (VArr l) = Throw TypeError).
Proof.
  intros Hf. cbn [array_map].
  destruct (mapM_res_dec f (λ x, value_of (f x)) P l Hf) as [[Hall ->] | [Hall ->]];
    [by left | by right].
Qed.

(** The list [getChannels] settles with when the three responses report
    success and hold arrays. *)
Lemma getChannels_dec (api : remote) users f1 f2 f3 cs gs ds :
  api "channels.list" exclude_archived = Ok (VObj f1) →
  api "groups.list" exclude_archived = Ok (VObj f2) →
  api "im.list" (VObj ∅) = Ok (VObj f3) →
  truthy (prop f1 "ok") = true → prop f1 "channels" = VArr cs →
  truthy (prop f2 "ok") = true → prop f2 "groups" = VArr gs →
  truthy (prop f3 "ok") = true → prop f3 "ims" = VArr ds →
  (listed_lists users cs gs ds
   ∧ run api (getChannels users)
     = Fulfilled (((λ c, value_of (channel_of c)) <$> cs)
                  ++ ((λ g, value_of (group_of g)) <$> gs)
                  ++ ((λ d, value_of (direct_of users d)) <$> ds)))
  ∨ (¬ listed_lists users cs gs ds
     ∧ run api (getChannels users) = Rejected TypeError).
Proof.
  intros H1 H2 H3 Hok1 Hcs Hok2 Hgs Hok3 Hds. unfold getChannels, listed_lists.
  fold exclude_archived.
  rewrite run_bind, (run_then _ _ _ _ _ (client_call_ok _ _ _ _ H1 Hok1)),
    (channels_of_response_ok _ Hok1), Hcs.
  destruct (array_map_dec channel_of _ cs channel_of_dec) as [[Hc ->] | [Hc ->]];
    [|right; split; [tauto | reflexivity]].
  rewrite run_bind, (run_then _ _ _ _ _ (client_call_ok _ _ _ _ H2 Hok2)),
    (groups_of_response_ok _ Hok2), Hgs.
  destruct (array_map_dec group_of _ gs group_of_dec) as [[Hg ->] | [Hg ->]];
    [|right; split; [tauto | reflexivity]].
  rewrite run_bind, (run_then _ _ _ _ _ (client_call_ok _ _ _ _ H3 Hok3)),
    (directs_of_response_ok _ _ Hok3), Hds.
  destruct (array_map_dec (direct_of users) _ ds (direct_of_dec users)) as [[Hd ->] | [Hd ->]];
    [|right; split; [tauto | reflexivity]].
  left. split; [done|]. cbn. by rewrite List.app_nil_r.
Qed.

Lemma listed_readable users cs gs ds :
  listed_lists users cs gs ds → readable_lists users cs gs ds.
Proof.
  intros (Hc & Hg & Hd). split; [|split].
  - eapply Forall_impl; [exact Hc|]. by intros c [? _].
  - eapply Forall_impl; [exact Hg|]. by intros g [? _].
  - eapply Forall_impl; [exact Hd|]. by intros d [? _].
Qed.

Lemma fmap_constant {A B} (f : A → B) (b : B) (l : list A) :
  (∀ x, f x = b) → f <$> l = replicate (length l) b.
Proof. intros Hf. induction l as [|x l IH]; [reflexivity|]. cbn. by rewrite Hf, IH. Qed.

Lemma fmap_agree {A B C} (f : A → B) (g : A → C) (h : B → C) (l : list A) :
  Forall (λ x, h (f x) = g x) l → h <$> (f <$> l) = g <$> l.
Proof. induction 1 as [|x l Hx _ IH]; [reflexivity|]. cbn. by rewrite Hx, IH. Qed.

Lemma channel_of_id c : listed_channel c →
  field (value_of (channel_of c)) "id" = field c "id"
  ∧ field (value_of (channel_of c)) "type" = VStr "channel".
Proof.
  intros [Hnn [s Hs]]. unfold channel_of.
  by rewrite (get_field_field _ "id" Hnn), (get_field_field _ "name" Hnn), !bind_Ok, Hs.
Qed.

Lemma group_of_id g : listed_group g →
  field (value_of (group_of g)) "id" = field g "id"
  ∧ field (value_of (group_of g)) "type" = VStr "group".
Proof.
  intros [[Hnn Hname] Hplain]. unfold group_of.
  rewrite (get_field_field _ "id" Hnn), (get_field_field _ "is_mpim" Hnn),
    (get_field_field _ "name" Hnn), !bind_Ok.
  destruct (group_name_dec (field g "is_mpim") (field g "name"))
    as [[_ [shown ->]] | [Hn _]]; [done | tauto].
Qed.

Lemma direct_of_id users d : listed_direct users d →
  field (value_of (direct_of users d)) "id" = field d "id"
  ∧ field (value_of (direct_of users d)) "type" = VStr "im".
Proof.
  intros Hd. destruct (direct_of_dec users d) as [[_ Heq] | [Hn _]]; [|done].
  destruct Hd as [[Hnn Hentry] _]. unfold direct_of in *.
  rewrite (get_field_field _ "id" Hnn), (get_field_field _ "user" Hnn), !bind_Ok in *.
  destruct (direct_name users (field d "user")) as [name|]; [done | discriminate].
Qed.

(** X18: when the three responses report success and every entry is
    listed (it can be read, and what its name is made of converts to a
    text), the list has one channel for every entry, in the order public
    channels, groups, direct messages and in the order of each response,
    with the id of its entry and the kind of its segment. *)
Theorem getChannels_preserves (api : remote) users f1 f2 f3 cs gs ds :
  api "channels.list" exclude_archived = Ok (VObj f1) →
  api "groups.list" exclude_archived = Ok (VObj f2) →
  api "im.list" (VObj ∅) = Ok (VObj f3) →
  truthy (prop f1 "ok") = true → prop f1 "channels" = VArr cs →
  truthy (prop f2 "ok") = true → prop f2 "groups" = VArr gs →
  truthy (prop f3 "ok") = true → prop f3 "ims" = VArr ds →
  listed_lists users cs gs ds →
  ∃ result,
    run api (getChannels users) = Fulfilled result
    ∧ length result = length cs + length gs + length ds
    ∧ (λ v, field v "id") <$> result = (λ v, field v "id") <$> (cs ++ gs ++ ds)
    ∧ (λ v, field v "type") <$> result
      = replicate (length cs) (VStr "channel")
        ++ replicate (length gs) (VStr "group")
        ++ replicate (length ds) (VStr "im").
Proof.
  intros H1 H2 H3 Hok1 Hcs Hok2 Hgs Hok3 Hds Hall.
  destruct (getChannels_dec api users f1 f2 f3 cs gs ds) as [[_ ->] | [Hn _]]; [done..| |done].
  destruct Hall as (Hc & Hg & Hd). eexists. split; [reflexivity|].
  split; [rewrite !List.length_app, !length_fmap; lia|]. split.
  - rewrite !fmap_app. f_equal; [|f_equal].
    + apply fmap_agree. eapply Forall_impl; [exact Hc|]. intros c Hx. by apply channel_of_id.
    + apply fmap_agree. eapply Forall_impl; [exact Hg|]. intros g Hx. by apply group_of_id.
    + apply fmap_agree. eapply Forall_impl; [exact Hd|]. intros d Hx. by apply direct_of_id.
  - rewrite !fmap_app. f_equal; [|f_equal].
    + rewrite <- (fmap_constant (λ _, VStr "channel") _ cs) by done.
      apply fmap_agree. eapply Forall_impl; [exact Hc|]. intros c Hx. by apply channel_of_id.
    + rewrite <- (fmap_constant (λ _, VStr "group") _ gs) by done.
      apply fmap_agree. eapply Forall_impl; [exact Hg|]. intros g Hx. by apply group_of_id.
    + rewrite <- (fmap_constant (λ _, VStr "im") _ ds) by done.
      apply fmap_agree. eapply Forall_impl; [exact Hd|]. intros d Hx. by apply direct_of_id.
Qed.

Lemma getChannels_preserves_witness :
  let cs := [VObj {[ "id" := VStr "C1"; "name" := VStr "general" ]}] in
  let gs := [VObj {[ "id" := VStr "G1"; "name" := VStr "mpdm-alice--bob-1";
                     "is_mpim" := VBool true ]}] in
  let ds := [VObj {[ "id" := VStr "D1"; "user" := VStr "U1" ]}] in
  let f1 : gmap string value := {[ "ok" := VBool true; "channels" := VArr cs ]} in
  let f2 : gmap string value := {[ "ok" := VBool true; "groups" := VArr gs ]} in
  let f3 : gmap string value := {[ "ok" := VBool true; "ims" := VArr ds ]} in
  ∃ result,
    run (listing (VObj f1) (VObj f2) (VObj f3)) (getChannels ∅) = Fulfilled result
    ∧ length result = length cs + length gs + length ds
    ∧ (λ v, field v "id") <$> result = (λ v, field v "id") <$> (cs ++ gs ++ ds)
    ∧ (λ v, field v "type") <$> result
      = replicate (length cs) (VStr "channel")
        ++ replicate (length gs) (VStr "group")
        ++ replicate (length ds) (VStr "im").
Proof.
  intros cs gs ds f1 f2 f3.
  apply (getChannels_preserves (listing (VObj f1) (VObj f2) (VObj f3)) ∅ f1 f2 f3 cs gs ds);
    try (vm_compute; reflexivity); try reflexivity.
  split; [|split]; repeat constructor.
  - by eexists.
  - intros _. by exists "mpdm-alice--bob-1".
  - discriminate.
  - intros key entry _ Hentry. by rewrite lookup_empty in Hentry.
  - by eexists.
  - by eexists.
Defined.

(** A public channel whose name is an object with a [toString] of its own
    rejects the list: the template literal cannot print the name. *)
Example getChannels_unprintable_name :
  run (listing
         (VObj {[ "ok" := VBool true;
                  "channels" :=
                    VArr [VObj {[ "id" := VStr "C1";
                                  "name" := VObj {[ "toString" := VNum "1" ]} ]}] ]})
         (VObj {[ "ok" := VBool true; "groups" := VArr [] ]})
         (VObj {[ "ok" := VBool true; "ims" := VArr [] ]}))
    (getChannels ∅)
  = Rejected TypeError.
Proof. vm_compute. reflexivity. Qed.

(** X19: the channel list is built as a whole or not at all: when the three
    responses report success and one entry of one of them cannot be read,
    a multi-party group without a text as name for instance, the promise is
    rejected with a [TypeError] and no channel is listed. *)
Theorem getChannels_all_or_nothing (api : remote) users f1 f2 f3 cs gs ds :
  api "channels.list" exclude_archived = Ok (VObj f1) →
  api "groups.list" exclude_archived = Ok (VObj f2) →
  api "im.list" (VObj ∅) = Ok (VObj f3) →
  truthy (prop f1 "ok") = true → prop f1 "channels" = VArr cs →
  truthy (prop f2 "ok") = true → prop f2 "groups" = VArr gs →
  truthy (prop f3 "ok") = true → prop f3 "ims" = VArr ds →
  ¬ readable_lists users cs gs ds →
  run api (getChannels users) = Rejected TypeError.
Proof.
  intros H1 H2 H3 Hok1 Hcs Hok2 Hgs Hok3 Hds Hall.
  destruct (getChannels_dec api users f1 f2 f3 cs gs ds) as [[Hy _] | [_ ->]]; [done..| |done].
  destruct Hall. by apply listed_readable.
Qed.

Lemma getChannels_all_or_nothing_witness :
  let cs := [VObj {[ "id" := VStr "C1"; "name" := VStr "general" ]}] in
  let gs := [VObj {[ "id" := VStr "G1"; "is_mpim" := VBool true ]}] in
  let f1 : gmap string value := {[ "ok" := VBool true; "channels" := VArr cs ]} in
  let f2 : gmap string value := {[ "ok" := VBool true; "groups" := VArr gs ]} in
  let f3 : gmap string value := {[ "ok" := VBool true; "ims" := VArr [] ]} in
  run (listing (VObj f1) (VObj f2) (VObj f3)) (getChannels ∅) = Rejected TypeError.
Proof.
  intros cs gs f1 f2 f3.
  apply (getChannels_all_or_nothing (listing (VObj f1) (VObj f2) (VObj f3)) ∅
           f1 f2 f3 cs gs []);
    try (vm_compute; reflexivity); try reflexivity.
  intros (_ & Hgroups & _). inversion Hgroups as [|? ? [_ Hname] _]; subst.
  destruct Hname as [raw Hraw]; [vm_compute; reflexivity|].
  vm_compute in Hraw. discriminate.
Defined.

(** ** Channel information *)

Lemma getChannelInfo_kind fields kind method key :
  (kind, (method, key)) ∈ info_operations →
  prop fields "type" = VStr kind →
  getChannelInfo (VObj fields)
  = Ok (Some (then_ (apiCall method (channel_request (prop fields "id")))
                (info_of_response (VObj fields) key))).
Proof.
  intros Hin Htype. unfold getChannelInfo.
  rewrite !get_field_VObj, !bind_Ok, Htype. unfold info_operations in Hin.
  repeat (apply elem_of_cons in Hin as [[= -> -> ->] | Hin]; [reflexivity|]).
  by apply elem_of_nil in Hin.
Qed.

(** X10: the information about a channel of a known kind is asked from the
    operation of that kind, once; when the response reports success and
    holds the object of the kind, the fulfilled value is the channel with
    its unread count and last-read timestamp set from that object, every
    other field as it was. *)
Theorem getChannelInfo_keeps_fields (api : remote) fields kind method key response :
  (kind, (method, key)) ∈ info_operations →
  prop fields "type" = VStr kind →
  api method (channel_request (prop fields "id")) = Ok response →
  truthy (field response "ok") = true →
  nullish (field response key) = false →
  ∃ p result,
    getChannelInfo (VObj fields) = Ok (Some p)
    ∧ calls api p = [(method, channel_request (prop fields "id"))]
    ∧ run api p = Fulfilled (VObj result)
    ∧ result !! "unreadCount" = Some (field (field response key) "unread_count")
    ∧ result !! "readTimestamp" = Some (field (field response key) "last_read")
    ∧ ∀ k, k ≠ "unreadCount" → k ≠ "readTimestamp" → result !! k = fields !! k.
Proof.
  intros Hin Htype Hresp Hok Hinfo.
  assert (nullish response = false) as Hnn.
  { destruct (nullish response) eqn:Hnn; [|done].
    by rewrite (field_nullish _ key Hnn) in Hinfo. }
  eexists _, _.
  split; [by apply (getChannelInfo_kind fields kind method key)|]. split; [apply calls_then|].
  rewrite (run_then _ _ _ _ _ (client_call_truthy _ _ _ _ Hresp Hok)).
  unfold info_of_response.
  rewrite (get_field_field _ key Hnn), bind_Ok.
  rewrite (get_field_field _ "unread_count" Hinfo), bind_Ok.
  rewrite (get_field_field _ "last_read" Hinfo), bind_Ok.
  split; [reflexivity|]. cbn [own_properties]. split; [|split].
  - rewrite lookup_insert_ne by done. by rewrite lookup_insert_eq.
  - by rewrite lookup_insert_eq.
  - intros k Hu Hr. by rewrite !lookup_insert_ne.
Qed.

Lemma getChannelInfo_keeps_fields_witness :
  let fields : gmap string value :=
    {[ "id" := VStr "D1"; "name" := VStr "@alice"; "type" := VStr "im" ]} in
  let response :=
    VObj {[ "ok" := VBool true;
            "channel" := VObj {[ "unread_count" := VNum "3"; "last_read" := VStr "1.5" ]} ]} in
  ∃ p result,
    getChannelInfo (VObj fields) = Ok (Some p)
    ∧ calls (answering "conversations.info" response) p
      = [("conversations.info", channel_request (prop fields "id"))]
    ∧ run (answering "conversations.info" response) p = Fulfilled (VObj result)
    ∧ result !! "unreadCount" = Some (field (field response "channel") "unread_count")
    ∧ result !! "readTimestamp" = Some (field (field response "channel") "last_read")
    ∧ ∀ k, k ≠ "unreadCount" → k ≠ "readTimestamp" → result !! k = fields !! k.
Proof.
  intros fields response.
  apply (getChannelInfo_keeps_fields (answering "conversations.info" response)
           fields "im" "conversations.info" "channel" response).
  - unfold info_operations. repeat constructor.
  - vm_compute; reflexivity.
  - reflexivity.
  - vm_compute; reflexivity.
  - vm_compute; reflexivity.
Defined.

(** X11: a response that reports success but lacks the object of the
    channel rejects the promise of [getChannelInfo] with a [TypeError];
    a response that reports a failure rejects it with the platform error
    of the web client, before the callback is run. *)
Theorem getChannelInfo_missing_info (api : remote) fields kind method key response :
  (kind, (method, key)) ∈ info_operations →
  prop fields "type" = VStr kind →
  api method (channel_request (prop fields "id")) = Ok response →
  nullish response = false →
  ∃ p,
    getChannelInfo (VObj fields) = Ok (Some p)
    ∧ (truthy (field response "ok") = true → nullish (field response key) = true →
       run api p = Rejected TypeError)
    ∧ (truthy (field response "ok") = false → run api p = Rejected PlatformError).
Proof.
  intros Hin Htype Hresp Hnn. eexists.
  split; [by apply (getChannelInfo_kind fields kind method key)|]. split.
  - intros Hok Hinfo.
    rewrite (run_then _ _ _ _ _ (client_call_truthy _ _ _ _ Hresp Hok)).
    unfold info_of_response.
    by rewrite (get_field_field _ key Hnn), bind_Ok,
      (get_field_nullish _ "unread_count" Hinfo).
  - intros Hok. apply run_then_rejected. unfold client_call.
    by rewrite Hresp, (get_field_field _ "ok" Hnn), Hok.
Qed.

Lemma getChannelInfo_missing_info_witness :
  let fields : gmap string value :=
    {[ "id" := VStr "G1"; "name" := VStr "#staff"; "type" := VStr "group" ]} in
  let empty := VObj {[ "ok" := VBool true ]} in
  let failed := VObj {[ "ok" := VBool false; "error" := VStr "channel_not_found" ]} in
  (∃ p, getChannelInfo (VObj fields) = Ok (Some p)
        ∧ run (answering "groups.info" empty) p = Rejected TypeError)
  ∧ (∃ p, getChannelInfo (VObj fields) = Ok (Some p)
          ∧ run (answering "groups.info" failed) p = Rejected PlatformError).
Proof.
  intros fields empty failed. split.
  - destruct (getChannelInfo_missing_info (answering "groups.info" empty)
                fields "group" "groups.info" "group" empty) as (p & Hp & Hmissing & _).
    + unfold info_operations. repeat constructor.
    + vm_compute; reflexivity.
    + reflexivity.
    + reflexivity.
    + exists p. split; [exact Hp|]. apply Hmissing; vm_compute; reflexivity.
  - destruct (getChannelInfo_missing_info (answering "groups.info" failed)
                fields "group" "groups.info" "group" failed) as (p & Hp & _ & Hfailed).
    + unfold info_operations. repeat constructor.
    + vm_compute; reflexivity.
    + reflexivity.
    + reflexivity.
    + exists p. split; [exact Hp|]. apply Hfailed; vm_compute; reflexivity.
Defined.

(** ** The actions *)

(** X12: a channel of a known kind is marked as read by the operation of
    its kind, called once with the channel's id and the timestamp; the
    promise returned is the one of the web client's call, with no callback
    of the source in between. *)
Theorem markChannel_dispatch (api : remote) arg kind method :
  (kind, method) ∈ mark_operations →
  field (field arg "channel") "type" = VStr kind →
  let request :=
    VObj {[ "channel" := field (field arg "channel") "id"; "ts" := field arg "ts" ]} in
  ∃ p,
    markChannel arg = Ok (Some p)
    ∧ calls api p = [(method, request)]
    ∧ run api p = client_call api method request.
Proof.
  intros Hin Htype request.
  assert (nullish (field arg "channel") = false) as Hchannel.
  { destruct (nullish (field arg "channel")) eqn:Hnn; [|done].
    by rewrite (field_nullish _ "type" Hnn) in Htype. }
  assert (nullish arg = false) as Harg.
  { destruct (nullish arg) eqn:Hnn; [|done].
    by rewrite (field_nullish _ "channel" Hnn) in Hchannel. }
  unfold markChannel.
  rewrite (get_field_field _ "channel" Harg), (get_field_field _ "ts" Harg), !bind_Ok.
  rewrite (get_field_field _ "id" Hchannel), (get_field_field _ "type" Hchannel), !bind_Ok.
  rewrite Htype. unfold mark_operations in Hin.
  repeat (apply elem_of_cons in Hin as [[= -> ->] | Hin];
          [eexists; split; [reflexivity|]; split; cbn;
           by destruct (client_call api _ _)|]).
  by apply elem_of_nil in Hin.
Qed.

Lemma markChannel_dispatch_witness :
  let arg :=
    VObj {[ "channel" := VObj {[ "id" := VStr "G1"; "type" := VStr "group" ]};
            "ts" := VStr "1.5" ]} in
  let request :=
    VObj {[ "channel" := field (field arg "channel") "id"; "ts" := field arg "ts" ]} in
  let api := answering "groups.mark" (VObj {[ "ok" := VBool true ]}) in
  ∃ p,
    markChannel arg = Ok (Some p)
    ∧ calls api p = [("groups.mark", request)]
    ∧ run api p = client_call api "groups.mark" request.
Proof.
  intros arg request api.
  apply (markChannel_dispatch api arg "group" "groups.mark").
  - unfold mark_operations. repeat constructor.
  - vm_compute; reflexivity.
Defined.

(** X13: for a channel of any other kind neither [getChannelInfo] nor
    [markChannel] calls the remote side: both return [undefined] where the
    caller expects a promise. *)
Theorem unknown_kind_no_call channel arg :
  nullish channel = false →
  known_kind (field channel "type") = false →
  field arg "channel" = channel →
  getChannelInfo channel = Ok None ∧ markChannel arg = Ok None.
Proof.
  intros Hchannel Hkind Harg. unfold known_kind in Hkind.
  apply orb_false_elim in Hkind as [Hkind Him].
  apply orb_false_elim in Hkind as [Hgroup Hpublic].
  assert (nullish arg = false) as Hnn.
  { destruct (nullish arg) eqn:Hnn; [|done].
    rewrite (field_nullish _ "channel" Hnn) in Harg. by subst. }
  unfold getChannelInfo, markChannel.
  rewrite (get_field_field _ "channel" Hnn), (get_field_field _ "ts" Hnn), !bind_Ok, Harg.
  rewrite (get_field_field _ "id" Hchannel), (get_field_field _ "type" Hchannel), !bind_Ok.
  by rewrite Hgroup, Hpublic, Him.
Qed.

Lemma unknown_kind_no_call_witness :
  let channel := VObj {[ "id" := VStr "C1"; "type" := VStr "mpim" ]} in
  let arg := VObj {[ "channel" := channel; "ts" := VStr "1.5" ]} in
  getChannelInfo channel = Ok None ∧ markChannel arg = Ok None.
Proof.
  intros channel arg. apply (unknown_kind_no_call channel arg); vm_compute; reflexivity.
Defined.

(** X14: [sendMessage] throws a [TypeError] when it is given nothing to take
    the channel and the text from; otherwise it posts once, as the user,
    with the channel and the text it was given, and the promise returned
    is the one of the web client's call, with no callback of the source in
    between. *)
Theorem sendMessage_forwards (api : remote) arg :
  (nullish arg = true → sendMessage arg = Throw TypeError)
  ∧ (nullish arg = false →
     let request :=
       VObj {[ "channel" := field arg "channel"; "text" := field arg "text";
               "as_user" := VBool true ]} in
     ∃ p,
       sendMessage arg = Ok p
       ∧ calls api p = [("chat.postMessage", request)]
       ∧ run api p = client_call api "chat.postMessage" request).
Proof.
  split.
  - intros Hnn. unfold sendMessage. by rewrite (get_field_nullish _ "channel" Hnn).
  - intros Hnn request. unfold sendMessage.
    rewrite (get_field_field _ "channel" Hnn), (get_field_field _ "text" Hnn), !bind_Ok.
    eexists. split; [reflexivity|]. cbn.
    by destruct (client_call api _ _).
Qed.

Lemma sendMessage_forwards_witness :
  let arg := VObj {[ "channel" := VStr "C1"; "text" := VStr "hi" ]} in
  let request :=
    VObj {[ "channel" := field arg "channel"; "text" := field arg "text";
            "as_user" := VBool true ]} in
  let api := answering "chat.postMessage" (VObj {[ "ok" := VBool true ]}) in
  sendMessage VUndefined = Throw TypeError
  ∧ ∃ p,
      sendMessage arg = Ok p
      ∧ calls api p = [("chat.postMessage", request)]
      ∧ run api p = client_call api "chat.postMessage" request.
Proof.
  intros arg request api. split.
  - destruct (sendMessage_forwards api VUndefined) as [Hthrows _]. by apply Hthrows.
  - destruct (sendMessage_forwards api arg) as [_ Hposts]. by apply Hposts.
Defined.

(** ** Transport failures *)

(** X20: no operation catches a transport failure: the history, the
    directory and the bot lookup reject with the error of their call, and
    the channel list is rejected when one of its three calls fails. *)
Theorem transport_failure_rejects (api : remote) e channel botId users :
  (api "conversations.history" (history_request channel) = Throw e →
   run api (getConversationHistory channel) = Rejected e)
  ∧ (api "users.list" (VObj ∅) = Throw e → run api getAllUsers = Rejected e)
  ∧ (api "bots.info" (VObj {[ "bot" := VStr botId ]}) = Throw e →
     run api (getBotInfo botId) = Rejected e)
  ∧ (api "channels.list" exclude_archived = Throw e
     ∨ api "groups.list" exclude_archived = Throw e
     ∨ api "im.list" (VObj ∅) = Throw e →
     ∃ e', run api (getChannels users) = Rejected e').
Proof.
  split; [|split; [|split]].
  - intros H. unfold getConversationHistory.
    apply run_then_rejected. by apply client_call_transport.
  - intros H. unfold getAllUsers. apply run_then_rejected. by apply client_call_transport.
  - intros H. unfold getBotInfo. apply run_then_rejected. by apply client_call_transport.
  - intros H. apply getChannels_rejected.
    destruct H as [H | [H | H]]; [left | right; left | right; right];
      exists e; by apply client_call_transport.
Qed.

Lemma transport_failure_rejects_witness :
  let api : remote := λ _ _, Throw TransportError in
  run api (getConversationHistory "C1") = Rejected TransportError
  ∧ ∃ e', run api (getChannels ∅) = Rejected e'.
Proof.
  intros api.
  destruct (transport_failure_rejects api TransportError "C1" "B1" ∅)
    as (Hhistory & _ & _ & Hchannels).
  split; [by apply Hhistory | apply Hchannels; by left].
Defined.
